(** * kt: shared infrastructure of the Kafka command-line tool

    A shallow embedding of [common.go]: the hash partitioner
    ([hashCode], [kafkaAbs], [hashCodePartition]), the client-id
    sanitizer ([sanitizeUsername]), the random token generator
    ([randomString]), the version resolver ([kafkaVersion]), the
    transform selector ([getTransformValue]) and the output loop
    ([print]).

    Conventions.
    - A Go [string] is a sequence of bytes: it is a Rocq [string], each
      [ascii] being one byte.
    - An [int32] (and a [rune], which is an [int32]) is a [Z]; every
      arithmetic operation of the source that can overflow is wrapped by
      [wrap32] where the source performs it.
    - A function that ends the process through [failf] returns a value
      that records the exit instead of a result. *)

From Stdlib Require Import ZArith Lia Bool List Ascii String.
From stdpp Require Import gmap strings.
Import ListNotations.

Local Open Scope Z_scope.

(** ** Machine integers *)

Module Int32.

Definition min_int : Z := -2147483648.
Definition max_int : Z := 2147483647.
Definition modulus : Z := 4294967296.

(** The two's-complement representative of [z] in [[min_int, max_int]]. *)
Definition wrap32 (z : Z) : Z := (z - min_int) mod modulus + min_int.

Definition in_range (z : Z) : Prop := min_int <= z <= max_int.

Definition add (a b : Z) : Z := wrap32 (a + b).
Definition mul (a b : Z) : Z := wrap32 (a * b).

(** Go's [%] on integers truncates toward zero: the result has the sign
    of the dividend.  The only overflowing case of [/] ([min_int / -1])
    has remainder [0], so no wrap is needed. *)
Definition rem (a b : Z) : Z := Z.rem a b.

End Int32.

(** ** Strings as byte sequences *)

Definition byte_val (c : ascii) : Z := Z.of_N (N_of_ascii c).

Fixpoint bytes (s : string) : list Z :=
  match s with
  | EmptyString => []
  | String c s' => byte_val c :: bytes s'
  end.

(** ** UTF-8 decoding as performed by [for _, r := range s]

    The loop reads a byte below [0x80] as itself and hands every other
    position to [decoderune] of the Go runtime, which yields the decoded
    code point and its width, or [runeError] with width [1] on any
    ill-formed, overlong, surrogate or out-of-range sequence. *)

Module Utf8.

Definition runeError : Z := 0xFFFD.
Definition runeSelf : Z := 0x80.
Definition maxRune : Z := 0x10FFFF.
Definition surrogateMin : Z := 0xD800.
Definition surrogateMax : Z := 0xDFFF.

Definition t2 : Z := 0xC0.
Definition t3 : Z := 0xE0.
Definition t4 : Z := 0xF0.
Definition t5 : Z := 0xF8.

Definition maskx : Z := 0x3F.
Definition mask2 : Z := 0x1F.
Definition mask3 : Z := 0x0F.
Definition mask4 : Z := 0x07.

Definition rune1Max : Z := 0x7F.
Definition rune2Max : Z := 0x7FF.
Definition rune3Max : Z := 0xFFFF.

Definition locb : Z := 0x80.
Definition hicb : Z := 0xBF.

Definition is_cont (b : Z) : bool := (locb <=? b) && (b <=? hicb).

(** [decoderune bs] decodes the code point at the head of [bs]; the
    second component is the number of bytes consumed. *)
Definition decoderune (bs : list Z) : Z * nat :=
  match bs with
  | [] => (runeError, 1%nat)
  | s0 :: tl =>
    if (t2 <=? s0) && (s0 <? t3) then
      match tl with
      | s1 :: _ =>
        if is_cont s1 then
          let r := Z.lor (Z.shiftl (Z.land s0 mask2) 6) (Z.land s1 maskx) in
          if rune1Max <? r then (r, 2%nat) else (runeError, 1%nat)
        else (runeError, 1%nat)
      | _ => (runeError, 1%nat)
      end
    else if (t3 <=? s0) && (s0 <? t4) then
      match tl with
      | s1 :: s2 :: _ =>
        if is_cont s1 && is_cont s2 then
          let r := Z.lor (Z.lor (Z.shiftl (Z.land s0 mask3) 12)
                                (Z.shiftl (Z.land s1 maskx) 6))
                         (Z.land s2 maskx) in
          if (rune2Max <? r) && negb ((surrogateMin <=? r) && (r <=? surrogateMax))
          then (r, 3%nat) else (runeError, 1%nat)
        else (runeError, 1%nat)
      | _ => (runeError, 1%nat)
      end
    else if (t4 <=? s0) && (s0 <? t5) then
      match tl with
      | s1 :: s2 :: s3 :: _ =>
        if is_cont s1 && is_cont s2 && is_cont s3 then
          let r := Z.lor (Z.lor (Z.lor (Z.shiftl (Z.land s0 mask4) 18)
                                       (Z.shiftl (Z.land s1 maskx) 12))
                                (Z.shiftl (Z.land s2 maskx) 6))
                         (Z.land s3 maskx) in
          if (rune3Max <? r) && (r <=? maxRune)
          then (r, 4%nat) else (runeError, 1%nat)
        else (runeError, 1%nat)
      | _ => (runeError, 1%nat)
      end
    else (runeError, 1%nat)
  end.

(** One iteration of the [range] loop at the head of [bs]. *)
Definition next_rune (bs : list Z) : Z * nat :=
  match bs with
  | [] => (runeError, 1%nat)
  | c :: _ => if c <? runeSelf then (c, 1%nat) else decoderune bs
  end.

(** The code points the [range] loop yields, in order.  [skip] counts
    the bytes still covered by the code point decoded last. *)
Fixpoint range_from (skip : nat) (bs : list Z) : list Z :=
  match bs with
  | [] => []
  | _ :: tl =>
    match skip with
    | S k => range_from k tl
    | O => let '(r, w) := next_rune bs in r :: range_from (Nat.pred w) tl
    end
  end.

Definition range (s : string) : list Z := range_from 0 (bytes s).

(** The UTF-8 form of a code point. *)
Definition encode (r : Z) : list Z :=
  if r <? 0x80 then [r]
  else if r <? 0x800 then [0xC0 + r / 64; 0x80 + r mod 64]
  else if r <? 0x10000 then
    [0xE0 + r / 4096; 0x80 + (r / 64) mod 64; 0x80 + r mod 64]
  else
    [0xF0 + r / 262144; 0x80 + (r / 4096) mod 64; 0x80 + (r / 64) mod 64;
     0x80 + r mod 64].

(** A code point that is not a surrogate. *)
Definition scalar_value (r : Z) : Prop :=
  0 <= r < 0xD800 \/ 0xDFFF < r <= 0x10FFFF.

End Utf8.

(** ** UTF-16 encoding of one code point ([unicode/utf16.EncodeRune]) *)

Module Utf16.

Definition replacementChar : Z := 0xFFFD.
Definition maxRune : Z := 0x10FFFF.
Definition surr1 : Z := 0xD800.
Definition surr2 : Z := 0xDC00.
Definition surrSelf : Z := 0x10000.

Definition EncodeRune (r : Z) : Z * Z :=
  if (r <? surrSelf) || (maxRune <? r) then (replacementChar, replacementChar)
  else
    let r' := r - surrSelf in
    (surr1 + Z.land (Z.shiftr r' 10) 0x3ff, surr2 + Z.land r' 0x3ff).

End Utf16.

(** ** The partitioner *)

Import Int32.

(** The body of the loop of [hashCode] for the code point [r]. *)
Definition hashCode_step (hc r : Z) : Z :=
  let '(r1, r2) := Utf16.EncodeRune r in
  if (r1 =? 0xfffd) && (r1 =? r2) then
    add (mul hc 31) r
  else
    add (mul (add (mul hc 31) r1) 31) r2.

Definition hashCode (s : string) : Z :=
  fold_left hashCode_step (Utf8.range s) 0.

Definition kafkaAbs (i : Z) : Z :=
  if i =? -2147483648 then 0
  else if i <? 0 then mul i (-1)
  else i.

Definition hashCodePartition (key : string) (partitions : Z) : Z :=
  if partitions <=? 0 then -1
  else rem (kafkaAbs (hashCode key)) partitions.


(** ** The reference algorithm

    [java.lang.String#hashCode], which [hashCode] imitates: a Java string
    is a sequence of UTF-16 code units [s[0] ... s[n-1]], and its hash is
    [s[0]*31^(n-1) + s[1]*31^(n-2) + ... + s[n-1]] in [int] arithmetic.
    A code point beyond the Basic Multilingual Plane occupies two code
    units, its high and its low surrogate. *)

Module Jvm.

Definition high_surrogate (cp : Z) : Z := 0xD800 + (cp - 0x10000) / 0x400.
Definition low_surrogate (cp : Z) : Z := 0xDC00 + (cp - 0x10000) mod 0x400.

(** The code units of one code point. *)
Definition toChars (cp : Z) : list Z :=
  if cp <? 0x10000 then [cp] else [high_surrogate cp; low_surrogate cp].

Definition String_hashCode (value : list Z) : Z :=
  fold_left (fun h c => wrap32 (31 * h + c)) value 0.

End Jvm.

(** ** The identity sanitizer *)

(** [strings.Split(s, sep)] for a separator of one byte: the segments of
    [s] between the occurrences of [sep].  The result always has at least
    one segment. *)
Fixpoint Split (s : string) (sep : ascii) : list string :=
  match s with
  | EmptyString => [EmptyString]
  | String c s' =>
    if Ascii.eqb c sep then EmptyString :: Split s' sep
    else
      match Split s' sep with
      | seg :: segs => String c seg :: segs
      | [] => [String c EmptyString]
      end
  end.

Definition backslash : ascii := "\"%char.

(** Membership of a code point in the class [a-zA-Z0-9_-]. *)
Definition client_id_char (r : Z) : bool :=
  ((0x61 <=? r) && (r <=? 0x7A))      (* a-z *)
  || ((0x41 <=? r) && (r <=? 0x5A))   (* A-Z *)
  || ((0x30 <=? r) && (r <=? 0x39))   (* 0-9 *)
  || (r =? 0x5F)                      (* _ *)
  || (r =? 0x2D).                     (* - *)

(** [invalidClientIDCharactersRegExp.ReplaceAllString(u, "")].  The
    expression [[^a-zA-Z0-9_-]] matches exactly one code point outside the
    class; the regexp engine reads its input one UTF-8 code point at a
    time (an ill-formed byte reads as U+FFFD, one byte wide).  Every match
    is replaced by the empty string, the text between matches is copied.
    [skip] counts the bytes still covered by the code point matched
    last. *)
Fixpoint ReplaceAllString_from (skip : nat) (u : string) : string :=
  match u with
  | EmptyString => EmptyString
  | String c u' =>
    match skip with
    | S k => ReplaceAllString_from k u'
    | O =>
      let '(r, w) := Utf8.next_rune (bytes u) in
      if client_id_char r then String c (ReplaceAllString_from (Nat.pred w) u')
      else ReplaceAllString_from (Nat.pred w) u'
    end
  end.

Definition ReplaceAllString (u : string) : string := ReplaceAllString_from 0 u.

Definition sanitizeUsername (u : string) : string :=
  let s := Split u backslash in
  let u := List.last s EmptyString in
  ReplaceAllString u.

(** ** The random token generator *)

Definition hex_digit (n : N) : ascii :=
  if (n <? 10)%N then ascii_of_N (48 + n) else ascii_of_N (87 + n).

(** [fmt.Sprintf("%x", buf)] for a byte slice: two lower-case hexadecimal
    digits per byte, most significant first. *)
Fixpoint Sprintf_x (buf : list ascii) : string :=
  match buf with
  | [] => EmptyString
  | b :: buf' =>
    let n := N_of_ascii b in
    String (hex_digit (n / 16)) (String (hex_digit (n mod 16)) (Sprintf_x buf'))
  end.

Fixpoint prefix (n : nat) (s : string) : string :=
  match n, s with
  | S n', String c s' => String c (prefix n' s')
  | _, _ => EmptyString
  end.

(** The slice expression [s[:n]]: it panics when [n] exceeds the length of
    [s]. *)
Definition slice_to (s : string) (n : nat) : option string :=
  if (n <=? String.length s)%nat then Some (prefix n s) else None.

Section RandomString.

(** [rand.New(rand.NewSource(seed))]: the stream of bytes that [Read]
    delivers from a generator freshly seeded with [seed]. *)
Variable rand_New : Z -> nat -> ascii.

(** [r.Read(buf)] fills the whole of [buf]. *)
Definition Read (seed : Z) (len : nat) : list ascii :=
  map (rand_New seed) (seq 0 len).

(** [now] is [time.Now().UnixNano()].  [make([]byte, length)] panics on
    a negative length, as does an out-of-range slice: [None]. *)
Definition randomString (now : Z) (length : Z) : option string :=
  if length <? 0 then None
  else
    let buf := Read now (Z.to_nat length) in
    slice_to (Sprintf_x buf) (Z.to_nat length).

End RandomString.

(** ** Formatted messages and fatal exits *)

(** A call of a [fmt] printing function: the format string and its
    operands, in order. *)
Record message : Type := Message { format : string; operands : list string }.

(** The result of a function that may end the process. *)
Inductive outcome (A : Type) : Type :=
| Returns (a : A)
| Exits (status : Z) (stderr : message).

Arguments Returns {A} a.
Arguments Exits {A} status stderr.

Definition newline : string := String "010"%char EmptyString.

(** [failf] writes the formatted message and a line feed to the standard
    error stream and exits with status [1]. *)
Definition failf {A : Type} (msg : string) (args : list string) : outcome A :=
  Exits 1 (Message (msg +:+ newline) args).

(** ** The version resolver *)

(** The constants of [sarama.KafkaVersion] the resolver refers to. *)
Inductive KafkaVersion : Type :=
| V0_8_2_0 | V0_8_2_1 | V0_8_2_2
| V0_9_0_0 | V0_9_0_1
| V0_10_0_0 | V0_10_0_1 | V0_10_1_0 | V0_10_2_0.

Definition unsupported_version_format : string :=
  "unsupported kafka version %#v - supported: v0.8.2.0, v0.8.2.1, v0.8.2.2, v0.9.0.0, v0.9.0.1, v0.10.0.0, v0.10.0.1, v0.10.1.0, v0.10.2.0".

Definition kafkaVersion (s : string) : outcome KafkaVersion :=
  let dflt := V0_10_0_0 in
  if String.eqb s "v0.8.2.0" then Returns V0_8_2_0
  else if String.eqb s "v0.8.2.1" then Returns V0_8_2_1
  else if String.eqb s "v0.8.2.2" then Returns V0_8_2_2
  else if String.eqb s "v0.9.0.0" then Returns V0_9_0_0
  else if String.eqb s "v0.9.0.1" then Returns V0_9_0_1
  else if String.eqb s "v0.10.0.0" then Returns V0_10_0_0
  else if String.eqb s "v0.10.0.1" then Returns V0_10_0_1
  else if String.eqb s "v0.10.1.0" then Returns V0_10_1_0
  else if String.eqb s "v0.10.2.0" then Returns V0_10_2_0
  else if String.eqb s "" then Returns dflt
  else failf unsupported_version_format [s].

(** The version strings the [switch] of [kafkaVersion] names, in the order
    of its cases (the empty string apart). *)
Definition version_strings : list string :=
  [ "v0.8.2.0"; "v0.8.2.1"; "v0.8.2.2"; "v0.9.0.0"; "v0.9.0.1";
    "v0.10.0.0"; "v0.10.0.1"; "v0.10.1.0"; "v0.10.2.0" ].

(** ** The transform selector *)

(** The process environment; [os.Getenv] yields the empty string for a
    variable that is not set. *)
Definition Getenv (env : gmap string string) (key : string) : string :=
  default EmptyString (env !! key).

Definition unsupported_transform_format : string :=
  "unsupported %s argument %#v, only string, hex and base64 are supported".

(** The second component is the [error]: [None] is [nil], [Some m] the
    error made by [fmt.Errorf] from [m]. *)
Definition getTransformValue (env : gmap string string)
    (name envvar argvalue : string) : string * option message :=
  let value := argvalue in
  let value := if String.eqb value "" then Getenv env envvar else value in
  if String.eqb value "string" || String.eqb value "hex" || String.eqb value "base64"
  then (value, None)
  else if String.eqb value "" then ("string", None)
  else (EmptyString, Some (Message unsupported_transform_format [name; value])).

(** ** The output loop *)

Module Printer.
Section Print.

(** The values handed to the loop ([interface{}]), their rendering by
  the [%#v] verb, and the two encoders [json.Marshal] and
  [json.MarshalIndent(_, "", "  ")]; an encoder yields the encoded
  text ([inl]) or the text of its error ([inr]). *)
Variable value : Type.
Variable GoString : value -> string.
Variable Marshal : value -> string + string.
Variable MarshalIndent : value -> string + string.

(** [done] names the channel that is closed once the record is
  written. *)
Record printContext : Type := { output : value; done : nat }.

(** What the loop has done so far: the texts written to the standard
  output, one per call of [fmt.Println], and the channels closed, both
  oldest first. *)
Record trace : Type := { stdout : list string; closed : list nat }.

Definition marshal_error_format : string :=
"failed to marshal output %#v, err=%v".

(** One turn of the loop, for the record [ctx] received from [in]. *)
Definition print_one (marshal : value -> string + string)
  (ctx : printContext) (t : trace) : outcome trace :=
match marshal (output ctx) with
| inr err => failf marshal_error_format [GoString (output ctx); err]
| inl buf =>
  Returns {| stdout := stdout t ++ [buf +:+ newline];
             closed := closed t ++ [done ctx] |}
end.

Fixpoint print_loop (marshal : value -> string + string)
  (received : list printContext) (t : trace) : outcome trace :=
match received with
| [] => Returns t
| ctx :: rest =>
  match print_one marshal ctx t with
  | Returns t' => print_loop marshal rest t'
  | Exits status msg => Exits status msg
  end
end.

(** [print] on the records [received] from the channel [in], in the
  order of their reception; [isTerminal] is
  [terminal.IsTerminal(int(syscall.Stdout))]. *)
Definition print (received : list printContext) (pretty isTerminal : bool)
  : outcome trace :=
let marshal := if pretty && isTerminal then MarshalIndent else Marshal in
print_loop marshal received {| stdout := []; closed := [] |}.



End Print.
End Printer.

(** ** Vocabulary of the statements *)

Definition valid_code_point (r : Z) : Prop := 0 <= r <= 0x10FFFF.

(** The characters of [s] that satisfy [p], in order. *)
Fixpoint keep (p : ascii -> bool) (s : string) : string :=
  match s with
  | EmptyString => EmptyString
  | String c s' => if p c then String c (keep p s') else keep p s'
  end.

Fixpoint all_chars (p : ascii -> bool) (s : string) : bool :=
  match s with
  | EmptyString => true
  | String c s' => p c && all_chars p s'
  end.

Fixpoint occurs (c : ascii) (s : string) : bool :=
  match s with
  | EmptyString => false
  | String c' s' => Ascii.eqb c' c || occurs c s'
  end.

(** A byte of the class [[A-Za-z0-9_-]]. *)
Definition client_id_byte (c : ascii) : bool := client_id_char (byte_val c).


(** ** The command dispatcher ([main.go]) *)

(** The four command types of the tool; [parseArgs] returns a fresh value
    of one of them. *)
Inductive command : Type := consumeCmd | produceCmd | topicCmd | groupCmd.

Definition tab : string := String "009"%char EmptyString.
Definition dquote : string := String "034"%char EmptyString.

(** [strings.Join(segs, sep)] for a separator of one byte. *)
Fixpoint Join (segs : list string) (sep : ascii) : string :=
  match segs with
  | [] => EmptyString
  | [seg] => seg
  | seg :: segs' => seg +:+ String sep (Join segs' sep)
  end.

(** The initial value of the variable [usageMessage]. *)
Definition usageMessage : string :=
  Join
    [ "kt is a tool for Kafka.";
      "";
      "Usage:";
      "";
      tab +:+ "kt command [arguments]";
      "";
      "The commands are:";
      "";
      tab +:+ "consume    consume messages.";
      tab +:+ "produce    produce messages.";
      tab +:+ "topic      topic information.";
      tab +:+ "group      consumer group information and modification";
      "";
      "Use " +:+ dquote +:+ "kt [command] -help" +:+ dquote
        +:+ " for for information about the command.";
      "";
      "More at https://github.com/fgeller/kt";
      "This is a fork from https://github.com/pkqk/kt" ]
    "010"%char.

(** [init]: the value of [usageMessage] once the package is initialised.
    The [%v] verb prints a string as it is. *)
Definition init (buildVersion buildTime : string) : string :=
  if (0 <? String.length buildTime)%nat && (0 <? String.length buildVersion)%nat
  then usageMessage +:+ newline +:+ "Build " +:+ buildVersion +:+ " from "
       +:+ buildTime +:+ "."
  else usageMessage.

(** [parseArgs] for the usage message [usage] and the argument vector
    [Args] ([os.Args]); the usage message is the format of [failf], with
    no operand. *)
Definition parseArgs (usage : string) (Args : list string) : outcome command :=
  if (List.length Args <? 2)%nat then failf usage []
  else
    let verb := nth 1 Args EmptyString in
    if String.eqb verb "consume" then Returns consumeCmd
    else if String.eqb verb "produce" then Returns produceCmd
    else if String.eqb verb "topic" then Returns topicCmd
    else if String.eqb verb "group" then Returns groupCmd
    else failf usage [].

(** [main]: the command whose [run] method is called, with the arguments
    [os.Args[2:]] it is called on. *)
Definition main (buildVersion buildTime : string) (Args : list string)
    : outcome (command * list string) :=
  match parseArgs (init buildVersion buildTime) Args with
  | Returns cmd => Returns (cmd, skipn 2 Args)
  | Exits status msg => Exits status msg
  end.

(** The verbs of the [switch] of [parseArgs] with their commands. *)
Definition verbs : list (string * command) :=
  [ ("consume", consumeCmd); ("produce", produceCmd);
    ("topic", topicCmd); ("group", groupCmd) ].

(** ** Reading the standard input by lines *)

Definition line_feed : ascii := "010"%char.
Definition carriage_return : ascii := "013"%char.

(** [dropCR] of [bufio]: the data without its last byte when that byte is
    a carriage return. *)
Fixpoint dropCR (data : string) : string :=
  match data with
  | EmptyString => EmptyString
  | String c EmptyString =>
    if Ascii.eqb c carriage_return then EmptyString else data
  | String c data' => String c (dropCR data')
  end.

(** The error of a [bufio.Scanner] whose buffer is full and holds no
    complete token. *)
Definition ErrTooLong : string := "bufio.Scanner: token too long".

(** The calls of [scanner.Scan] with the split function [bufio.ScanLines]
    and a buffer of [max] bytes that may not grow ([scanner.Buffer(make([]byte,
    max), max)]), on an input that is read without error up to its end.
    [cur] is the part of the current line that is in the buffer.  The
    scanner needs room in the buffer to read on, be it only to see the end
    of the input; a line feed ends a line, whose text is the line without
    the line feed and without a carriage return before it; at the end of
    the input a last line that is not empty is returned as well.  The
    result is the texts of the successful calls and [scanner.Err()]. *)
Fixpoint Scan (max : nat) (cur input : string) : list string * option string :=
  if (max <=? String.length cur)%nat then ([], Some ErrTooLong)
  else
    match input with
    | EmptyString =>
      (match cur with EmptyString => [] | _ => [dropCR cur] end, None)
    | String c input' =>
      if Ascii.eqb c line_feed then
        let '(texts, err) := Scan max EmptyString input' in
        (dropCR cur :: texts, err)
      else Scan max (cur +:+ String c EmptyString) input'
    end.

(** What [readStdinLines] has done when it returns: the strings sent on
    [out], in order, whether [out] is closed, and what was written to the
    standard error stream. *)
Record stdin_lines : Type :=
  { sent : list string; out_closed : bool; scan_failure : option message }.

Definition scan_failure_format : string :=
  "scanning input failed err=%v" +:+ newline.

(** [readStdinLines(max, out)] on the standard input [stdin];
    [make([]byte, max)] panics on a negative [max]: [None]. *)
Definition readStdinLines (stdin : string) (max : Z) : option stdin_lines :=
  if max <? 0 then None
  else
    let '(texts, err) := Scan (Z.to_nat max) EmptyString stdin in
    Some {| sent := texts;
            out_closed := true;
            scan_failure :=
              match err with
              | Some e => Some (Message scan_failure_format [e])
              | None => None
              end |}.

(** ** Further vocabulary *)

(** The polynomial [s[0]*31^(n-1) + s[1]*31^(n-2) + ... + s[n-1]] of the
    documentation of [String#hashCode]. *)
Fixpoint polynomial (value : list Z) : Z :=
  match value with
  | [] => 0
  | c :: rest => c * 31 ^ Z.of_nat (List.length rest) + polynomial rest
  end.

(** A byte below [0x80]. *)
Definition ascii_byte (c : ascii) : bool := byte_val c <? 0x80.

(** [s] is the beginning of [t]. *)
Definition string_prefix (s t : string) : Prop := exists rest, t = s +:+ rest.

(** * Properties *)

(** ** 32-bit arithmetic *)

Lemma wrap32_in_range (z : Z) : in_range (wrap32 z).
Proof.
  unfold in_range, wrap32, min_int, max_int, modulus.
  pose proof (Z.mod_pos_bound (z - -2147483648) 4294967296 ltac:(lia)). lia.
Qed.

Lemma wrap32_id (z : Z) : in_range z -> wrap32 z = z.
Proof.
  unfold in_range, wrap32, min_int, max_int, modulus. intros Hz.
  rewrite Z.mod_small; lia.
Qed.

Lemma wrap32_congr (a b : Z) :
  a mod modulus = b mod modulus -> wrap32 a = wrap32 b.
Proof.
  unfold wrap32, modulus, min_int. intros Hab.
  rewrite <- (Zminus_mod_idemp_l a), <- (Zminus_mod_idemp_l b), Hab. reflexivity.
Qed.

Lemma wrap32_mod (z : Z) : wrap32 z mod modulus = z mod modulus.
Proof.
  unfold wrap32, modulus, min_int.
  rewrite Zplus_mod_idemp_l. f_equal. lia.
Qed.

Lemma wrap32_add_l (a b : Z) : wrap32 (wrap32 a + b) = wrap32 (a + b).
Proof.
  apply wrap32_congr.
  rewrite <- Zplus_mod_idemp_l, wrap32_mod, Zplus_mod_idemp_l. reflexivity.
Qed.

Lemma wrap32_mul_l (a b : Z) : wrap32 (wrap32 a * b) = wrap32 (a * b).
Proof.
  apply wrap32_congr.
  rewrite <- Zmult_mod_idemp_l, wrap32_mod, Zmult_mod_idemp_l. reflexivity.
Qed.

Lemma wrap32_mul_r (a b : Z) : wrap32 (a * wrap32 b) = wrap32 (a * b).
Proof. rewrite (Z.mul_comm a), wrap32_mul_l, Z.mul_comm. reflexivity. Qed.

(** ** The partitioner *)

Lemma hashCode_step_in_range (hc r : Z) : in_range (hashCode_step hc r).
Proof.
  unfold hashCode_step. destruct (Utf16.EncodeRune r) as [r1 r2].
  destruct ((r1 =? 0xfffd) && (r1 =? r2)); apply wrap32_in_range.
Qed.

Lemma fold_hashCode_step_in_range (rs : list Z) (hc : Z) :
  in_range hc -> in_range (fold_left hashCode_step rs hc).
Proof.
  revert hc. induction rs as [| r rs IH]; intros hc Hhc; simpl.
  - exact Hhc.
  - apply IH, hashCode_step_in_range.
Qed.

Lemma hashCode_in_range (s : string) : in_range (hashCode s).
Proof.
  unfold hashCode. apply fold_hashCode_step_in_range.
  unfold in_range, min_int, max_int. lia.
Qed.

Lemma kafkaAbs_spec (i : Z) :
  in_range i ->
  kafkaAbs i = if i =? min_int then 0 else Z.abs i.
Proof.
  unfold kafkaAbs, in_range, min_int, max_int. intros Hi.
  destruct (i =? -2147483648) eqn:Hmin; [reflexivity |].
  apply Z.eqb_neq in Hmin.
  destruct (i <? 0) eqn:Hneg.
  - apply Z.ltb_lt in Hneg. unfold mul.
    rewrite wrap32_id by (unfold in_range, min_int, max_int; lia). lia.
  - apply Z.ltb_ge in Hneg. lia.
Qed.

Lemma kafkaAbs_nonneg (i : Z) : in_range i -> 0 <= kafkaAbs i <= max_int.
Proof.
  intros Hi. rewrite kafkaAbs_spec by exact Hi.
  unfold in_range, min_int, max_int in *.
  destruct (i =? -2147483648) eqn:Hmin; [lia |].
  apply Z.eqb_neq in Hmin. lia.
Qed.

(** C1: for every key, a partition count [n <= 0] yields the sentinel
    [-1], and a partition count [n > 0] yields a partition in [[0, n)]. *)
Theorem hashCodePartition_range (key : string) (n : Z) :
  (n <= 0 -> hashCodePartition key n = -1) /\
  (0 < n -> 0 <= hashCodePartition key n < n).
Proof.
  unfold hashCodePartition. split; intros Hn.
  - apply Z.leb_le in Hn. rewrite Hn. reflexivity.
  - destruct (n <=? 0) eqn:Hle; [apply Z.leb_le in Hle; lia |].
    pose proof (kafkaAbs_nonneg (hashCode key) (hashCode_in_range key)) as Habs.
    unfold rem. apply Z.rem_bound_pos; lia.
Qed.

Lemma hashCodePartition_range_witness :
  hashCodePartition "kafka" (-5) = -1 /\ 0 <= hashCodePartition "kafka" 7 < 7.
Proof.
  split.
  - apply (hashCodePartition_range "kafka" (-5)). lia.
  - apply (hashCodePartition_range "kafka" 7). lia.
Defined.

Lemma land_shiftr_1023 (x : Z) :
  0 <= x < 0x100000 -> Z.land (Z.shiftr x 10) 0x3ff = x / 0x400.
Proof.
  intros Hx. change 0x3ff with (Z.ones 10).
  rewrite Z.land_ones, Z.shiftr_div_pow2 by lia.
  change (2 ^ 10) with 1024. change 0x400 with 1024.
  apply Z.mod_small. split.
  - apply Z.div_pos; lia.
  - apply Z.div_lt_upper_bound; lia.
Qed.

Lemma land_1023 (x : Z) : Z.land x 0x3ff = x mod 0x400.
Proof. change 0x3ff with (Z.ones 10). rewrite Z.land_ones by lia. reflexivity. Qed.

Lemma EncodeRune_bmp (r : Z) :
  r < 0x10000 -> Utf16.EncodeRune r = (0xFFFD, 0xFFFD).
Proof.
  intros Hr. unfold Utf16.EncodeRune, Utf16.surrSelf.
  apply Z.ltb_lt in Hr. rewrite Hr. reflexivity.
Qed.

Lemma EncodeRune_supplementary (r : Z) :
  0x10000 <= r <= 0x10FFFF ->
  Utf16.EncodeRune r = (Jvm.high_surrogate r, Jvm.low_surrogate r).
Proof.
  intros Hr. unfold Utf16.EncodeRune, Utf16.surrSelf, Utf16.maxRune.
  destruct (r <? 0x10000) eqn:H1; [apply Z.ltb_lt in H1; lia |].
  destruct (0x10FFFF <? r) eqn:H2; [apply Z.ltb_lt in H2; lia |].
  cbn [orb]. unfold Jvm.high_surrogate, Jvm.low_surrogate, Utf16.surr1, Utf16.surr2.
  rewrite land_shiftr_1023 by lia. rewrite land_1023. reflexivity.
Qed.

Lemma high_surrogate_range (r : Z) :
  0x10000 <= r <= 0x10FFFF -> 0xD800 <= Jvm.high_surrogate r <= 0xDBFF.
Proof.
  intros Hr. unfold Jvm.high_surrogate.
  assert (0 <= (r - 0x10000) / 0x400 < 0x400); [| lia].
  split; [apply Z.div_pos; lia | apply Z.div_lt_upper_bound; lia].
Qed.

Lemma low_surrogate_range (r : Z) : 0xDC00 <= Jvm.low_surrogate r <= 0xDFFF.
Proof.
  unfold Jvm.low_surrogate.
  pose proof (Z.mod_pos_bound (r - 0x10000) 0x400 ltac:(lia)). lia.
Qed.

Local Opaque wrap32.

Lemma hashCode_step_bmp (hc r : Z) :
  r < 0x10000 -> hashCode_step hc r = wrap32 (hc * 31 + r).
Proof.
  intros Hr. unfold hashCode_step. rewrite EncodeRune_bmp by exact Hr.
  cbn [Z.eqb andb Pos.eqb]. unfold add, mul. apply wrap32_add_l.
Qed.

Lemma hashCode_step_supplementary (hc r : Z) :
  0x10000 <= r <= 0x10FFFF ->
  hashCode_step hc r =
  wrap32 ((hc * 31 + Jvm.high_surrogate r) * 31 + Jvm.low_surrogate r).
Proof.
  intros Hr. unfold hashCode_step. rewrite EncodeRune_supplementary by exact Hr.
  pose proof (high_surrogate_range r Hr) as Hhi.
  destruct (Jvm.high_surrogate r =? 0xfffd) eqn:Heq; [apply Z.eqb_eq in Heq; lia |].
  cbn [andb]. unfold add, mul.
  set (hi := Jvm.high_surrogate r). set (lo := Jvm.low_surrogate r).
  rewrite <- (wrap32_add_l ((hc * 31 + hi) * 31) lo).
  rewrite <- (wrap32_mul_l (hc * 31 + hi) 31).
  rewrite <- (wrap32_add_l (hc * 31) hi). reflexivity.
Qed.

Local Transparent wrap32.

(** ** The code points of a key *)

Lemma byte_val_range (c : ascii) : 0 <= byte_val c < 256.
Proof. unfold byte_val. pose proof (N_ascii_bounded c). lia. Qed.

Lemma bytes_range (s : string) : Forall (fun b => 0 <= b < 256) (bytes s).
Proof.
  induction s as [| c s IH]; simpl; constructor; [apply byte_val_range | exact IH].
Qed.

Lemma lor_lt_pow2 (a b n : Z) :
  0 <= n -> 0 <= a < 2 ^ n -> 0 <= b < 2 ^ n -> 0 <= Z.lor a b < 2 ^ n.
Proof.
  intros Hn Ha Hb. split; [apply Z.lor_nonneg; lia |].
  destruct (Z.eq_dec a 0) as [-> | Ha0]; [rewrite Z.lor_0_l; lia |].
  destruct (Z.eq_dec b 0) as [-> | Hb0]; [rewrite Z.lor_0_r; lia |].
  assert (0 < Z.lor a b) as Hpos.
  { pose proof (proj2 (Z.lor_nonneg a b) (conj (proj1 Ha) (proj1 Hb))).
    destruct (Z.eq_dec (Z.lor a b) 0) as [H0 | H0]; [| lia].
    apply Z.lor_eq_0_iff in H0. lia. }
  apply Z.log2_lt_pow2; [exact Hpos |].
  rewrite Z.log2_lor by lia.
  apply Z.max_lub_lt; apply Z.log2_lt_pow2; lia.
Qed.

Lemma land_mask_shiftl_lt (s mask_bits k : Z) :
  0 <= mask_bits -> 0 <= k ->
  0 <= Z.shiftl (Z.land s (Z.ones mask_bits)) k < 2 ^ (mask_bits + k).
Proof.
  intros Hm Hk. rewrite Z.land_ones, Z.shiftl_mul_pow2 by lia.
  rewrite Z.pow_add_r by lia.
  pose proof (Z.mod_pos_bound s (2 ^ mask_bits) ltac:(apply Z.pow_pos_nonneg; lia)).
  pose proof (Z.pow_pos_nonneg 2 k ltac:(lia) Hk). nia.
Qed.

Lemma land_mask_lt (s mask_bits : Z) :
  0 <= mask_bits -> 0 <= Z.land s (Z.ones mask_bits) < 2 ^ mask_bits.
Proof.
  intros Hm. rewrite Z.land_ones by lia.
  apply Z.mod_pos_bound, Z.pow_pos_nonneg; lia.
Qed.

Lemma decoderune_valid (bs : list Z) :
  valid_code_point (fst (Utf8.decoderune bs)).
Proof.
  assert (valid_code_point Utf8.runeError) as Herr
    by (unfold valid_code_point, Utf8.runeError; lia).
  unfold Utf8.decoderune. destruct bs as [| s0 tl]; [exact Herr |].
  destruct ((Utf8.t2 <=? s0) && (s0 <? Utf8.t3)).
  { destruct tl as [| s1 tl]; [exact Herr |].
    destruct (Utf8.is_cont s1); [| exact Herr].
    cbv zeta. set (r := Z.lor _ _).
    destruct (Utf8.rune1Max <? r) eqn:Hlo; [| exact Herr].
    apply Z.ltb_lt in Hlo. unfold Utf8.rune1Max in Hlo.
    assert (0 <= r < 2 ^ 16) as Hr; [| unfold valid_code_point; simpl; lia].
    apply lor_lt_pow2; [lia | |].
    - pose proof (land_mask_shiftl_lt s0 5 6 ltac:(lia) ltac:(lia)) as H.
      change (Z.ones 5) with Utf8.mask2 in H. simpl Z.add in H.
      change (2 ^ 11) with 2048 in H. change (2 ^ 16) with 65536. lia.
    - pose proof (land_mask_lt s1 6 ltac:(lia)) as H.
      change (Z.ones 6) with Utf8.maskx in H.
      change (2 ^ 6) with 64 in H. change (2 ^ 16) with 65536. lia. }
  destruct ((Utf8.t3 <=? s0) && (s0 <? Utf8.t4)).
  { destruct tl as [| s1 [| s2 tl]]; [exact Herr | exact Herr |].
    destruct (Utf8.is_cont s1 && Utf8.is_cont s2); [| exact Herr].
    cbv zeta. set (r := Z.lor _ _).
    destruct ((Utf8.rune2Max <? r) && _) eqn:Hlo; [| exact Herr].
    apply andb_true_iff in Hlo. destruct Hlo as [Hlo _].
    apply Z.ltb_lt in Hlo. unfold Utf8.rune2Max in Hlo.
    assert (0 <= r < 2 ^ 16) as Hr; [| unfold valid_code_point; simpl; lia].
    apply lor_lt_pow2; [lia | apply lor_lt_pow2; [lia | |] |].
    - pose proof (land_mask_shiftl_lt s0 4 12 ltac:(lia) ltac:(lia)) as H.
      change (Z.ones 4) with Utf8.mask3 in H. exact H.
    - pose proof (land_mask_shiftl_lt s1 6 6 ltac:(lia) ltac:(lia)) as H.
      change (Z.ones 6) with Utf8.maskx in H. simpl Z.add in H.
      change (2 ^ 12) with 4096 in H. change (2 ^ 16) with 65536. lia.
    - pose proof (land_mask_lt s2 6 ltac:(lia)) as H.
      change (Z.ones 6) with Utf8.maskx in H.
      change (2 ^ 6) with 64 in H. change (2 ^ 16) with 65536. lia. }
  destruct ((Utf8.t4 <=? s0) && (s0 <? Utf8.t5)); [| exact Herr].
  destruct tl as [| s1 [| s2 [| s3 tl]]]; [exact Herr | exact Herr | exact Herr |].
  destruct (Utf8.is_cont s1 && Utf8.is_cont s2 && Utf8.is_cont s3); [| exact Herr].
  cbv zeta. set (r := Z.lor _ _).
  destruct ((Utf8.rune3Max <? r) && (r <=? Utf8.maxRune)) eqn:Hlo; [| exact Herr].
  apply andb_true_iff in Hlo. destruct Hlo as [Hlo Hhi].
  apply Z.ltb_lt in Hlo. apply Z.leb_le in Hhi.
  unfold Utf8.rune3Max in Hlo. unfold Utf8.maxRune in Hhi.
  unfold valid_code_point. simpl. lia.
Qed.

Lemma next_rune_valid (bs : list Z) :
  Forall (fun b => 0 <= b < 256) bs ->
  valid_code_point (fst (Utf8.next_rune bs)).
Proof.
  intros Hbs. unfold Utf8.next_rune. destruct bs as [| c tl].
  - unfold valid_code_point, Utf8.runeError. simpl. lia.
  - destruct (c <? Utf8.runeSelf) eqn:Hc; [| apply decoderune_valid].
    apply Z.ltb_lt in Hc. unfold Utf8.runeSelf in Hc.
    apply Forall_inv in Hbs. unfold valid_code_point. simpl. lia.
Qed.

Lemma range_from_valid (bs : list Z) (skip : nat) :
  Forall (fun b => 0 <= b < 256) bs ->
  Forall valid_code_point (Utf8.range_from skip bs).
Proof.
  intros Hbs. revert skip. induction Hbs as [| b bs Hb Hbs IH]; intros skip.
  - constructor.
  - cbn [Utf8.range_from]. destruct skip as [| k]; [| apply IH].
    pose proof (next_rune_valid (b :: bs) ltac:(constructor; assumption)) as Hr.
    destruct (Utf8.next_rune (b :: bs)) as [r w]. constructor; [exact Hr | apply IH].
Qed.

Lemma range_valid (s : string) : Forall valid_code_point (Utf8.range s).
Proof. apply range_from_valid, bytes_range. Qed.

(** *** Decoding a well-formed key

    On the UTF-8 form of a sequence of code points the [range] loop yields
    these code points, in order. *)

Lemma land_low_zero (x y k : Z) :
  0 <= k -> x mod 2 ^ k = 0 -> 0 <= y < 2 ^ k -> Z.land x y = 0.
Proof.
  intros Hk Hx Hy. apply Z.bits_inj'. intros n Hn.
  rewrite Z.land_spec, Z.bits_0.
  destruct (Z.lt_ge_cases n k) as [Hlt | Hge].
  - rewrite <- (Z.mod_pow2_bits_low x k n) by lia. rewrite Hx, Z.bits_0. reflexivity.
  - rewrite <- (Z.mod_small y (2 ^ k)) by lia.
    rewrite Z.mod_pow2_bits_high by lia. apply andb_false_r.
Qed.

Lemma lor_disjoint_add (x y k : Z) :
  0 <= k -> x mod 2 ^ k = 0 -> 0 <= y < 2 ^ k -> Z.lor x y = x + y.
Proof.
  intros Hk Hx Hy. rewrite <- Z.add_lor_land.
  rewrite (land_low_zero x y k) by assumption. lia.
Qed.

Lemma land_maskx (s : Z) : 0x80 <= s <= 0xBF -> Z.land s Utf8.maskx = s - 0x80.
Proof.
  intros Hs. change Utf8.maskx with (Z.ones 6). rewrite Z.land_ones by lia.
  change (2 ^ 6) with 64. Z.div_mod_to_equations. lia.
Qed.

Lemma decoderune_2 (s0 s1 : Z) (rest : list Z) :
  0xC0 <= s0 < 0xE0 -> 0x80 <= s1 <= 0xBF ->
  0x7F < (s0 - 0xC0) * 64 + (s1 - 0x80) ->
  Utf8.decoderune (s0 :: s1 :: rest) = ((s0 - 0xC0) * 64 + (s1 - 0x80), 2%nat).
Proof.
  intros H0 H1 Hr. unfold Utf8.decoderune.
  assert (((Utf8.t2 <=? s0) && (s0 <? Utf8.t3)) = true) as ->
    by (unfold Utf8.t2, Utf8.t3; lia).
  assert (Utf8.is_cont s1 = true) as ->
    by (unfold Utf8.is_cont, Utf8.locb, Utf8.hicb; lia).
  assert (Z.lor (Z.shiftl (Z.land s0 Utf8.mask2) 6) (Z.land s1 Utf8.maskx)
          = (s0 - 0xC0) * 64 + (s1 - 0x80)) as Hval.
  { rewrite land_maskx by lia.
    assert (Z.land s0 Utf8.mask2 = s0 - 0xC0) as ->.
    { change Utf8.mask2 with (Z.ones 5). rewrite Z.land_ones by lia.
      change (2 ^ 5) with 32. Z.div_mod_to_equations. lia. }
    rewrite Z.shiftl_mul_pow2 by lia. change (2 ^ 6) with 64.
    apply (lor_disjoint_add _ _ 6); [lia | apply Z.mod_mul; lia | change (2 ^ 6) with 64; lia]. }
  cbv zeta. rewrite Hval.
  assert ((Utf8.rune1Max <? (s0 - 0xC0) * 64 + (s1 - 0x80)) = true) as ->
    by (unfold Utf8.rune1Max; lia).
  reflexivity.
Qed.

Lemma decoderune_3 (s0 s1 s2 : Z) (rest : list Z) :
  0xE0 <= s0 < 0xF0 -> 0x80 <= s1 <= 0xBF -> 0x80 <= s2 <= 0xBF ->
  let r := (s0 - 0xE0) * 4096 + (s1 - 0x80) * 64 + (s2 - 0x80) in
  0x7FF < r -> ~ (0xD800 <= r <= 0xDFFF) ->
  Utf8.decoderune (s0 :: s1 :: s2 :: rest) = (r, 3%nat).
Proof.
  intros H0 H1 H2 r Hr Hsur. unfold Utf8.decoderune.
  assert (((Utf8.t2 <=? s0) && (s0 <? Utf8.t3)) = false) as ->
    by (unfold Utf8.t2, Utf8.t3; lia).
  assert (((Utf8.t3 <=? s0) && (s0 <? Utf8.t4)) = true) as ->
    by (unfold Utf8.t3, Utf8.t4; lia).
  assert (Utf8.is_cont s1 = true) as ->
    by (unfold Utf8.is_cont, Utf8.locb, Utf8.hicb; lia).
  assert (Utf8.is_cont s2 = true) as ->
    by (unfold Utf8.is_cont, Utf8.locb, Utf8.hicb; lia).
  assert (Z.lor (Z.lor (Z.shiftl (Z.land s0 Utf8.mask3) 12)
                       (Z.shiftl (Z.land s1 Utf8.maskx) 6))
                (Z.land s2 Utf8.maskx) = r) as Hval.
  { rewrite !land_maskx by lia.
    assert (Z.land s0 Utf8.mask3 = s0 - 0xE0) as ->.
    { change Utf8.mask3 with (Z.ones 4). rewrite Z.land_ones by lia.
      change (2 ^ 4) with 16. Z.div_mod_to_equations. lia. }
    rewrite !Z.shiftl_mul_pow2 by lia. change (2 ^ 12) with 4096. change (2 ^ 6) with 64.
    rewrite (lor_disjoint_add ((s0 - 0xE0) * 4096) ((s1 - 0x80) * 64) 12);
      [| lia | apply Z.mod_mul; lia | change (2 ^ 12) with 4096; lia].
    apply (lor_disjoint_add _ _ 6); [lia | | change (2 ^ 6) with 64; lia].
    change (2 ^ 6) with 64. Z.div_mod_to_equations. lia. }
  cbv zeta. cbn [andb]. rewrite Hval.
  assert (((Utf8.rune2Max <? r)
           && negb ((Utf8.surrogateMin <=? r) && (r <=? Utf8.surrogateMax))) = true) as ->
    by (unfold Utf8.rune2Max, Utf8.surrogateMin, Utf8.surrogateMax; lia).
  reflexivity.
Qed.

Lemma decoderune_4 (s0 s1 s2 s3 : Z) (rest : list Z) :
  0xF0 <= s0 < 0xF8 -> 0x80 <= s1 <= 0xBF -> 0x80 <= s2 <= 0xBF ->
  0x80 <= s3 <= 0xBF ->
  let r := (s0 - 0xF0) * 262144 + (s1 - 0x80) * 4096 + (s2 - 0x80) * 64
           + (s3 - 0x80) in
  0xFFFF < r <= 0x10FFFF ->
  Utf8.decoderune (s0 :: s1 :: s2 :: s3 :: rest) = (r, 4%nat).
Proof.
  intros H0 H1 H2 H3 r Hr. unfold Utf8.decoderune.
  assert (((Utf8.t2 <=? s0) && (s0 <? Utf8.t3)) = false) as ->
    by (unfold Utf8.t2, Utf8.t3; lia).
  assert (((Utf8.t3 <=? s0) && (s0 <? Utf8.t4)) = false) as ->
    by (unfold Utf8.t3, Utf8.t4; lia).
  assert (((Utf8.t4 <=? s0) && (s0 <? Utf8.t5)) = true) as ->
    by (unfold Utf8.t4, Utf8.t5; lia).
  assert (Utf8.is_cont s1 = true) as ->
    by (unfold Utf8.is_cont, Utf8.locb, Utf8.hicb; lia).
  assert (Utf8.is_cont s2 = true) as ->
    by (unfold Utf8.is_cont, Utf8.locb, Utf8.hicb; lia).
  assert (Utf8.is_cont s3 = true) as ->
    by (unfold Utf8.is_cont, Utf8.locb, Utf8.hicb; lia).
  assert (Z.lor (Z.lor (Z.lor (Z.shiftl (Z.land s0 Utf8.mask4) 18)
                              (Z.shiftl (Z.land s1 Utf8.maskx) 12))
                       (Z.shiftl (Z.land s2 Utf8.maskx) 6))
                (Z.land s3 Utf8.maskx) = r) as Hval.
  { rewrite !land_maskx by lia.
    assert (Z.land s0 Utf8.mask4 = s0 - 0xF0) as ->.
    { change Utf8.mask4 with (Z.ones 3). rewrite Z.land_ones by lia.
      change (2 ^ 3) with 8. Z.div_mod_to_equations. lia. }
    rewrite !Z.shiftl_mul_pow2 by lia.
    change (2 ^ 18) with 262144. change (2 ^ 12) with 4096. change (2 ^ 6) with 64.
    rewrite (lor_disjoint_add ((s0 - 0xF0) * 262144) ((s1 - 0x80) * 4096) 18);
      [| lia | apply Z.mod_mul; lia | change (2 ^ 18) with 262144; lia].
    rewrite (lor_disjoint_add _ ((s2 - 0x80) * 64) 12);
      [| lia | | change (2 ^ 12) with 4096; lia].
    2:{ change (2 ^ 12) with 4096. Z.div_mod_to_equations. lia. }
    apply (lor_disjoint_add _ _ 6); [lia | | change (2 ^ 6) with 64; lia].
    change (2 ^ 6) with 64. Z.div_mod_to_equations. lia. }
  cbv zeta. cbn [andb]. rewrite Hval.
  assert (((Utf8.rune3Max <? r) && (r <=? Utf8.maxRune)) = true) as ->
    by (unfold Utf8.rune3Max, Utf8.maxRune; lia).
  reflexivity.
Qed.

Lemma range_from_encode (r : Z) (rest : list Z) :
  Utf8.scalar_value r ->
  Utf8.range_from 0 (Utf8.encode r ++ rest) = r :: Utf8.range_from 0 rest.
Proof.
  unfold Utf8.scalar_value, Utf8.encode. intros Hr.
  destruct (Z.ltb_spec r 0x80) as [H1 | H1].
  { cbn [app Utf8.range_from]. unfold Utf8.next_rune.
    assert ((r <? Utf8.runeSelf) = true) as -> by (unfold Utf8.runeSelf; lia).
    reflexivity. }
  destruct (Z.ltb_spec r 0x800) as [H2 | H2].
  { cbn [app Utf8.range_from]. unfold Utf8.next_rune.
    assert ((0xC0 + r / 64 <? Utf8.runeSelf) = false) as ->
      by (unfold Utf8.runeSelf; Z.div_mod_to_equations; lia).
    rewrite decoderune_2 by (Z.div_mod_to_equations; lia).
    cbn [Nat.pred]. f_equal. Z.div_mod_to_equations. lia. }
  destruct (Z.ltb_spec r 0x10000) as [H3 | H3].
  { cbn [app Utf8.range_from]. unfold Utf8.next_rune.
    assert ((0xE0 + r / 4096 <? Utf8.runeSelf) = false) as ->
      by (unfold Utf8.runeSelf; Z.div_mod_to_equations; lia).
    rewrite decoderune_3 by (Z.div_mod_to_equations; lia).
    cbn [Nat.pred]. f_equal. Z.div_mod_to_equations. lia. }
  cbn [app Utf8.range_from]. unfold Utf8.next_rune.
  assert ((0xF0 + r / 262144 <? Utf8.runeSelf) = false) as ->
    by (unfold Utf8.runeSelf; Z.div_mod_to_equations; lia).
  rewrite decoderune_4 by (Z.div_mod_to_equations; lia).
  cbn [Nat.pred]. f_equal. Z.div_mod_to_equations. lia.
Qed.

Lemma range_from_encode_all (rs : list Z) :
  Forall Utf8.scalar_value rs ->
  Utf8.range_from 0 (flat_map Utf8.encode rs) = rs.
Proof.
  induction 1 as [| r rs Hr Hrs IH]; [reflexivity |].
  cbn [flat_map]. rewrite range_from_encode by exact Hr. rewrite IH. reflexivity.
Qed.

(** ** Agreement with the reference algorithm *)

Local Opaque wrap32.

Lemma String_hashCode_toChars (hc r : Z) :
  valid_code_point r ->
  fold_left (fun h c => wrap32 (31 * h + c)) (Jvm.toChars r) hc = hashCode_step hc r.
Proof.
  unfold valid_code_point, Jvm.toChars. intros Hr.
  destruct (r <? 0x10000) eqn:Hbmp.
  - apply Z.ltb_lt in Hbmp. rewrite hashCode_step_bmp by exact Hbmp.
    cbn [fold_left]. rewrite (Z.mul_comm 31). reflexivity.
  - apply Z.ltb_ge in Hbmp. rewrite hashCode_step_supplementary by lia.
    cbn [fold_left]. set (hi := Jvm.high_surrogate r). set (lo := Jvm.low_surrogate r).
    rewrite (Z.mul_comm 31 hc), (Z.mul_comm 31 (wrap32 _)).
    rewrite <- (wrap32_add_l (wrap32 (hc * 31 + hi) * 31) lo).
    rewrite (wrap32_mul_l (hc * 31 + hi) 31).
    apply wrap32_add_l.
Qed.

Lemma String_hashCode_fold (rs : list Z) (hc : Z) :
  Forall valid_code_point rs ->
  fold_left (fun h c => wrap32 (31 * h + c)) (flat_map Jvm.toChars rs) hc
  = fold_left hashCode_step rs hc.
Proof.
  intros Hrs. revert hc. induction Hrs as [| r rs Hr Hrs IH]; intros hc.
  - reflexivity.
  - cbn [flat_map fold_left]. rewrite fold_left_app.
    rewrite String_hashCode_toChars by exact Hr. apply IH.
Qed.

Local Transparent wrap32.

(** C2: [hashCode] folds the code points of the key in order (those its
    UTF-8 form encodes, when the key is well formed), each of them a
    valid code point; a code point beyond the Basic Multilingual
    Plane is folded as its surrogate pair,
    [hc = (hc*31 + high)*31 + low], any other one (U+FFFD included) once,
    [hc = hc*31 + codepoint], in 32-bit wrapping arithmetic; the result is
    [String#hashCode] of the UTF-16 form of the key. *)
Theorem hashCode_imitates_String_hashCode (s : string) :
  hashCode s = fold_left hashCode_step (Utf8.range s) 0 /\
  Forall valid_code_point (Utf8.range s) /\
  (forall hc r, 0x10000 <= r <= 0x10FFFF ->
     hashCode_step hc r =
     wrap32 ((hc * 31 + Jvm.high_surrogate r) * 31 + Jvm.low_surrogate r)) /\
  (forall hc r, 0 <= r < 0x10000 -> hashCode_step hc r = wrap32 (hc * 31 + r)) /\
  (forall hc, hashCode_step hc 0xFFFD = wrap32 (hc * 31 + 0xFFFD)) /\
  in_range (hashCode s) /\
  hashCode s = Jvm.String_hashCode (flat_map Jvm.toChars (Utf8.range s)) /\
  (forall rs, Forall Utf8.scalar_value rs -> bytes s = flat_map Utf8.encode rs ->
     Utf8.range s = rs).
Proof.
  split; [reflexivity |].
  split; [apply range_valid |].
  split; [intros hc r Hr; apply hashCode_step_supplementary, Hr |].
  split; [intros hc r Hr; apply hashCode_step_bmp; lia |].
  split; [intros hc; apply hashCode_step_bmp; lia |].
  split; [apply hashCode_in_range |].
  split.
  - unfold hashCode, Jvm.String_hashCode. symmetry.
    apply String_hashCode_fold, range_valid.
  - intros rs Hrs Hs. unfold Utf8.range. rewrite Hs.
    apply range_from_encode_all, Hrs.
Qed.

Lemma hashCode_imitates_String_hashCode_witness :
  hashCode_step 7 0x1F600 = wrap32 ((7 * 31 + 0xD83D) * 31 + 0xDE00) /\
  hashCode_step 7 0x6B = wrap32 (7 * 31 + 0x6B) /\
  Utf8.range "kafka" = [107; 97; 102; 107; 97].
Proof.
  destruct (hashCode_imitates_String_hashCode "kafka")
    as (_ & _ & Hsup & Hbmp & _ & _ & _ & Hdec).
  split; [| split].
  - apply (Hsup 7 0x1F600). lia.
  - apply (Hbmp 7 0x6B). lia.
  - apply (Hdec [107; 97; 102; 107; 97]); [| reflexivity].
    repeat constructor; unfold Utf8.scalar_value; lia.
Defined.

(** C3, as the code has it: the hash of "kafka" is [101807910], the value
    of the reference algorithm on its code units, and the partition of
    the key "kafka" is that value modulo the partition count; the hash of
    the empty string is [0] and its partition is [0] for every positive
    partition count. *)
Theorem hashCode_kafka_and_empty :
  hashCode "kafka" = 101807910 /\
  Jvm.String_hashCode [107; 97; 102; 107; 97] = 101807910 /\
  (forall n, 0 < n -> hashCodePartition "kafka" n = 101807910 mod n) /\
  hashCode "" = 0 /\
  (forall n, 0 < n -> hashCodePartition "" n = 0).
Proof.
  split; [reflexivity |]. split; [reflexivity |].
  split; [| split; [reflexivity |]]; intros n Hn; unfold hashCodePartition;
    (destruct (n <=? 0) eqn:Hle; [apply Z.leb_le in Hle; lia |]).
  - change (kafkaAbs (hashCode "kafka")) with 101807910.
    unfold rem. apply Z.rem_mod_nonneg; lia.
  - change (kafkaAbs (hashCode "")) with 0. unfold rem. apply Z.rem_0_l. lia.
Qed.

Lemma hashCode_kafka_and_empty_witness :
  hashCodePartition "kafka" 7 = 101807910 mod 7 /\ hashCodePartition "" 7 = 0.
Proof.
  destruct hashCode_kafka_and_empty as (_ & _ & Hk & _ & He).
  split; [apply (Hk 7) | apply (He 7)]; lia.
Defined.

(** C3, as the spec has it, fails: [105354032] is not the hash of
    "kafka". *)
Lemma hashCode_kafka_is_not_105354032 : hashCode "kafka" <> 105354032.
Proof. vm_compute. discriminate. Qed.

(** C4: [kafkaAbs] is the magnitude of its argument, except at the least
    32-bit integer, where it is [0]; a key whose hash is the least 32-bit
    integer goes to partition [0] for every positive partition count. *)
Theorem kafkaAbs_min_int :
  (forall i, in_range i -> i <> min_int -> kafkaAbs i = Z.abs i) /\
  kafkaAbs min_int = 0 /\
  (forall key n,
     hashCode key = min_int -> 0 < n -> hashCodePartition key n = 0).
Proof.
  split; [| split].
  - intros i Hi Hne. rewrite kafkaAbs_spec by exact Hi.
    destruct (i =? min_int) eqn:Heq; [apply Z.eqb_eq in Heq; contradiction | reflexivity].
  - reflexivity.
  - intros key n Hkey Hn. unfold hashCodePartition.
    destruct (n <=? 0) eqn:Hle; [apply Z.leb_le in Hle; lia |].
    rewrite Hkey. change (kafkaAbs min_int) with 0. unfold rem. apply Z.rem_0_l. lia.
Qed.

Lemma kafkaAbs_min_int_witness :
  kafkaAbs (-5) = 5 /\ hashCodePartition "polygenelubricants" 7 = 0.
Proof.
  destruct kafkaAbs_min_int as (Habs & _ & Hpart). split.
  - apply (Habs (-5)); [unfold in_range, min_int, max_int; lia | unfold min_int; lia].
  - apply (Hpart "polygenelubricants" 7); [vm_compute; reflexivity | lia].
Defined.

(** ** The identity sanitizer *)

Lemma client_id_char_high (r : Z) : 0x7B <= r -> client_id_char r = false.
Proof.
  intros Hr. unfold client_id_char.
  destruct (Z.leb_spec r 0x7A), (Z.leb_spec r 0x5A), (Z.leb_spec r 0x39),
    (Z.eqb_spec r 0x5F), (Z.eqb_spec r 0x2D);
    rewrite ?andb_false_r; try reflexivity; lia.
Qed.

Lemma is_cont_outside (b : Z) : Utf8.is_cont b = true -> client_id_char b = false.
Proof.
  unfold Utf8.is_cont, Utf8.locb. intros Hb.
  apply andb_true_iff in Hb. destruct Hb as [Hlo _]. apply Z.leb_le in Hlo.
  apply client_id_char_high. lia.
Qed.

Lemma runeError_outside : client_id_char Utf8.runeError = false.
Proof. reflexivity. Qed.

(** A code point that [decoderune] yields is outside the class, and so
    are the bytes it covers after the first. *)
Lemma decoderune_outside (bs : list Z) :
  client_id_char (fst (Utf8.decoderune bs)) = false /\
  Forall (fun b => client_id_char b = false)
         (take (Nat.pred (snd (Utf8.decoderune bs))) (tail bs)).
Proof.
  assert (forall l : list Z,
            client_id_char (fst (Utf8.runeError, 1%nat)) = false /\
            Forall (fun b => client_id_char b = false)
                   (take (Nat.pred (snd (Utf8.runeError, 1%nat))) l)) as Herr
    by (intros l; split; [reflexivity | constructor]).
  unfold Utf8.decoderune. destruct bs as [| s0 tl]; [apply Herr |].
  cbn [tail].
  destruct ((Utf8.t2 <=? s0) && (s0 <? Utf8.t3)).
  { destruct tl as [| s1 tl]; [apply Herr |].
    destruct (Utf8.is_cont s1) eqn:H1; [| apply Herr].
    cbv zeta. set (r := Z.lor _ _).
    destruct (Utf8.rune1Max <? r) eqn:Hlo; [| apply Herr].
    apply Z.ltb_lt in Hlo. unfold Utf8.rune1Max in Hlo. split.
    - apply client_id_char_high. simpl. lia.
    - repeat constructor. apply is_cont_outside, H1. }
  destruct ((Utf8.t3 <=? s0) && (s0 <? Utf8.t4)).
  { destruct tl as [| s1 [| s2 tl]]; [apply Herr | apply Herr |].
    destruct (Utf8.is_cont s1) eqn:H1; [| apply Herr].
    destruct (Utf8.is_cont s2) eqn:H2; [| apply Herr].
    cbv zeta. cbn [andb]. set (r := Z.lor _ _).
    destruct ((Utf8.rune2Max <? r) && _) eqn:Hlo; [| apply Herr].
    apply andb_true_iff in Hlo. destruct Hlo as [Hlo _].
    apply Z.ltb_lt in Hlo. unfold Utf8.rune2Max in Hlo. split.
    - apply client_id_char_high. simpl. lia.
    - repeat constructor; apply is_cont_outside; assumption. }
  destruct ((Utf8.t4 <=? s0) && (s0 <? Utf8.t5)); [| apply Herr].
  destruct tl as [| s1 [| s2 [| s3 tl]]]; [apply Herr | apply Herr | apply Herr |].
  destruct (Utf8.is_cont s1) eqn:H1; [| apply Herr].
  destruct (Utf8.is_cont s2) eqn:H2; [| apply Herr].
  destruct (Utf8.is_cont s3) eqn:H3; [| apply Herr].
  cbv zeta. cbn [andb]. set (r := Z.lor _ _).
  destruct ((Utf8.rune3Max <? r) && (r <=? Utf8.maxRune)) eqn:Hlo; [| apply Herr].
  apply andb_true_iff in Hlo. destruct Hlo as [Hlo _].
  apply Z.ltb_lt in Hlo. unfold Utf8.rune3Max in Hlo. split.
  - apply client_id_char_high. simpl. lia.
  - repeat constructor; apply is_cont_outside; assumption.
Qed.

(** Replacing the code points outside the class by nothing deletes
    exactly the bytes outside the class. *)
Lemma ReplaceAllString_from_keep (u : string) (k : nat) :
  Forall (fun b => client_id_char b = false) (take k (bytes u)) ->
  ReplaceAllString_from k u = keep client_id_byte u.
Proof.
  revert k. induction u as [| c u IH]; intros k Hk.
  - destruct k; reflexivity.
  - cbn [ReplaceAllString_from keep]. destruct k as [| k].
    + unfold Utf8.next_rune. cbn [bytes]. unfold client_id_byte.
      destruct (byte_val c <? Utf8.runeSelf) eqn:Hc.
      * cbn [Nat.pred].
        destruct (client_id_char (byte_val c)); rewrite IH by constructor; reflexivity.
      * apply Z.ltb_ge in Hc. unfold Utf8.runeSelf in Hc.
        rewrite (client_id_char_high (byte_val c)) by lia.
        pose proof (decoderune_outside (byte_val c :: bytes u)) as [Hr Hw].
        destruct (Utf8.decoderune (byte_val c :: bytes u)) as [r w].
        cbn [fst snd tail] in Hr, Hw. rewrite Hr. apply IH, Hw.
    + cbn [bytes take] in Hk. inversion Hk as [| b l Hb Hl]; subst.
      unfold client_id_byte. rewrite Hb. apply IH, Hl.
Qed.

Lemma ReplaceAllString_keep (u : string) :
  ReplaceAllString u = keep client_id_byte u.
Proof. apply ReplaceAllString_from_keep. constructor. Qed.

Lemma Split_shape (u : string) (sep : ascii) :
  (occurs sep u = false /\ Split u sep = [u]) \/
  (exists pre seg s0 rest,
      u = pre +:+ String sep seg /\ occurs sep seg = false /\
      Split u sep = s0 :: rest ++ [seg]).
Proof.
  induction u as [| c u IH].
  - left. split; reflexivity.
  - cbn [Split occurs]. destruct (Ascii.eqb c sep) eqn:Hc.
    + apply Ascii.eqb_eq in Hc. subst c. right.
      destruct IH as [[Hno Hsplit] | (pre & seg & s0 & rest & Hu & Hno & Hsplit)].
      * exists EmptyString, u, EmptyString, []. rewrite Hsplit. auto.
      * exists (String sep pre), seg, EmptyString, (s0 :: rest).
        rewrite Hsplit, Hu. auto.
    + destruct IH as [[Hno Hsplit] | (pre & seg & s0 & rest & Hu & Hno & Hsplit)].
      * left. rewrite Hsplit, Hno. auto.
      * right. exists (String c pre), seg, (String c s0), rest.
        rewrite Hsplit, Hu. auto.
Qed.

Lemma last_segment (s0 seg : string) (rest : list string) :
  List.last (s0 :: rest ++ [seg]) EmptyString = seg.
Proof.
  change (s0 :: rest ++ [seg]) with ((s0 :: rest) ++ [seg]).
  apply List.last_last.
Qed.

Lemma keep_all_chars (p : ascii -> bool) (s : string) : all_chars p (keep p s) = true.
Proof.
  induction s as [| c s IH]; [reflexivity |].
  cbn [keep]. destruct (p c) eqn:Hc; [| exact IH].
  cbn [all_chars]. rewrite Hc, IH. reflexivity.
Qed.

Lemma keep_id (p : ascii -> bool) (s : string) : all_chars p s = true -> keep p s = s.
Proof.
  induction s as [| c s IH]; [reflexivity |].
  cbn [all_chars keep]. intros H. apply andb_true_iff in H. destruct H as [Hc Hs].
  rewrite Hc, IH by exact Hs. reflexivity.
Qed.

Lemma all_chars_no_occurrence (p : ascii -> bool) (c : ascii) (s : string) :
  p c = false -> all_chars p s = true -> occurs c s = false.
Proof.
  intros Hc. induction s as [| c' s IH]; [reflexivity |].
  cbn [all_chars occurs]. intros H. apply andb_true_iff in H. destruct H as [Hc' Hs].
  rewrite IH by exact Hs. rewrite orb_false_r.
  destruct (Ascii.eqb_spec c' c) as [-> | _]; [congruence | reflexivity].
Qed.

(** C8: [sanitizeUsername] keeps the segment of its argument after the
    last backslash (the whole of it when there is none) and deletes from
    it every character outside [[A-Za-z0-9_-]]; "DOMAIN\Jane Doe!"
    becomes "JaneDoe" and the empty string stays empty. *)
Theorem sanitizeUsername_correct (u : string) :
  (exists pre seg,
      u = pre +:+ seg /\
      occurs backslash seg = false /\
      (pre = EmptyString \/ exists p, pre = p +:+ String backslash EmptyString) /\
      sanitizeUsername u = keep client_id_byte seg) /\
  sanitizeUsername "DOMAIN\Jane Doe!" = "JaneDoe" /\
  sanitizeUsername "" = "".
Proof.
  split; [| split; reflexivity].
  unfold sanitizeUsername.
  destruct (Split_shape u backslash)
    as [[Hno Hsplit] | (pre & seg & s0 & rest & Hu & Hno & Hsplit)].
  - exists EmptyString, u. rewrite Hsplit. cbn [List.last].
    rewrite ReplaceAllString_keep. auto.
  - exists (pre +:+ String backslash EmptyString), seg.
    rewrite Hsplit, last_segment, ReplaceAllString_keep.
    repeat split; [| exact Hno | right; exists pre; reflexivity].
    rewrite Hu. clear. induction pre as [| c pre IH]; [reflexivity |].
    change (String c (pre +:+ String backslash seg)
            = String c ((pre +:+ String backslash EmptyString) +:+ seg)).
    f_equal. exact IH.
Qed.

(** C10: [sanitizeUsername] is idempotent; its result holds neither a
    backslash nor any character outside [[A-Za-z0-9_-]]. *)
Theorem sanitizeUsername_idempotent (u : string) :
  sanitizeUsername (sanitizeUsername u) = sanitizeUsername u /\
  occurs backslash (sanitizeUsername u) = false /\
  all_chars client_id_byte (sanitizeUsername u) = true.
Proof.
  assert (all_chars client_id_byte (sanitizeUsername u) = true) as Hall.
  { unfold sanitizeUsername. rewrite ReplaceAllString_keep. apply keep_all_chars. }
  assert (occurs backslash (sanitizeUsername u) = false) as Hno.
  { apply (all_chars_no_occurrence client_id_byte); [reflexivity | exact Hall]. }
  split; [| split; assumption].
  set (v := sanitizeUsername u) in *. unfold sanitizeUsername.
  destruct (Split_shape v backslash)
    as [[_ Hsplit] | (pre & seg & s0 & rest & Hv & _ & _)].
  - rewrite Hsplit. cbn [List.last]. rewrite ReplaceAllString_keep.
    apply keep_id, Hall.
  - exfalso. rewrite Hv in Hno. clear - Hno.
    induction pre as [| c pre IH].
    + change (occurs backslash (String backslash seg) = false) in Hno.
      cbn [occurs] in Hno. rewrite Ascii.eqb_refl in Hno. discriminate.
    + change (occurs backslash (String c (pre +:+ String backslash seg)) = false) in Hno.
      cbn [occurs] in Hno. apply orb_false_iff in Hno. tauto.
Qed.

(** ** The random token generator *)


Lemma Sprintf_x_length (buf : list ascii) :
  String.length (Sprintf_x buf) = (2 * List.length buf)%nat.
Proof.
  induction buf as [| b buf IH]; [reflexivity |].
  cbn [Sprintf_x String.length List.length]. rewrite IH. lia.
Qed.




Lemma Read_length (rand_New : Z -> nat -> ascii) (seed : Z) (len : nat) :
  List.length (Read rand_New seed len) = len.
Proof. unfold Read. rewrite List.length_map, List.length_seq. reflexivity. Qed.



(** ** The version resolver *)

(** Closes [~ In s [l1; ...; ln]] for string literals. *)
Ltac not_in_literals :=
  let H := fresh in
  cbn [In]; intros H;
  repeat (destruct H as [H | H]; [discriminate H |]);
  destruct H.

Ltac case_version s :=
  repeat match goal with
         | |- context [String.eqb s ?lit] =>
           destruct (String.eqb_spec s lit) as [-> | ?]
         end.

Lemma kafkaVersion_unsupported (s : string) :
  s <> EmptyString -> ~ In s version_strings ->
  kafkaVersion s = failf unsupported_version_format [s].
Proof.
  intros Hne Hnot. unfold kafkaVersion.
  case_version s; try reflexivity; try contradiction;
    exfalso; apply Hnot; unfold version_strings; cbn [In]; tauto.
Qed.

Lemma kafkaVersion_returns (s : string) (v : KafkaVersion) :
  kafkaVersion s = Returns v -> s = EmptyString \/ In s version_strings.
Proof.
  intros Hv.
  destruct (string_dec s EmptyString) as [He | Hne]; [left; exact He | right].
  destruct (in_dec string_dec s version_strings) as [Hin | Hnot]; [exact Hin |].
  rewrite (kafkaVersion_unsupported s Hne Hnot) in Hv. discriminate.
Qed.

(** C6, as the code has it: the resolver names nine version strings; it
    maps each of them to its version and the empty string to the default
    version [V0_10_0_0], and exits with status [1] and a message that
    quotes the input on every other string. *)
Theorem kafkaVersion_correct :
  List.length version_strings = 9%nat /\
  List.NoDup version_strings /\
  (forall s, s <> EmptyString -> ~ In s version_strings ->
     kafkaVersion s = Exits 1 (Message (unsupported_version_format +:+ newline) [s])) /\
  kafkaVersion "" = Returns V0_10_0_0 /\
  map kafkaVersion version_strings =
    map Returns [ V0_8_2_0; V0_8_2_1; V0_8_2_2; V0_9_0_0; V0_9_0_1;
                  V0_10_0_0; V0_10_0_1; V0_10_1_0; V0_10_2_0 ] /\
  kafkaVersion "v0.10.1.0" = Returns V0_10_1_0.
Proof.
  split; [reflexivity |]. split.
  - apply NoDup_ListNoDup, (bool_decide_unpack _). vm_compute. exact I.
  - split; [| repeat split].
    intros s Hne Hnot. apply kafkaVersion_unsupported; assumption.
Qed.

Lemma kafkaVersion_correct_witness :
  kafkaVersion "bogus" = Exits 1 (Message (unsupported_version_format +:+ newline) ["bogus"]).
Proof.
  destruct kafkaVersion_correct as (_ & _ & Hfatal & _).
  apply (Hfatal "bogus").
  - discriminate.
  - unfold version_strings. not_in_literals.
Defined.

(** C6, as the spec has it, fails: the resolver does not recognise ten
    version strings, since no ten distinct non-empty strings are all
    resolved. *)
Lemma kafkaVersion_not_ten_version_strings :
  ~ exists l : list string,
      List.NoDup l /\ List.length l = 10%nat /\
      (forall s, In s l -> s <> EmptyString /\ exists v, kafkaVersion s = Returns v) /\
      (forall s, s <> EmptyString -> ~ In s l -> exists m, kafkaVersion s = Exits 1 m).
Proof.
  intros (l & Hnodup & Hlen & Hres & _).
  assert (incl l version_strings) as Hincl.
  { intros s Hs. destruct (Hres s Hs) as (Hne & v & Hv).
    destruct (kafkaVersion_returns s v Hv) as [He | Hin]; [contradiction | exact Hin]. }
  pose proof (NoDup_incl_length Hnodup Hincl) as Hle.
  rewrite Hlen in Hle. cbn in Hle. lia.
Qed.

(** ** The transform selector *)

(** C7: the selector takes [argvalue] when it is not empty, else the value
    of the environment variable [envvar], else the empty string; it
    returns "string", "hex" and "base64" as they are, "string" for the
    empty value, and for any other value an error made from the option
    name and the value. *)
Theorem getTransformValue_correct (env : gmap string string)
    (name envvar argvalue : string) :
  let value :=
    match argvalue with
    | EmptyString =>
      match env !! envvar with Some v => v | None => EmptyString end
    | _ => argvalue
    end in
  (In value ["string"; "hex"; "base64"] ->
     getTransformValue env name envvar argvalue = (value, None)) /\
  (value = EmptyString ->
     getTransformValue env name envvar argvalue = ("string", None)) /\
  (value <> EmptyString -> ~ In value ["string"; "hex"; "base64"] ->
     getTransformValue env name envvar argvalue =
     (EmptyString,
      Some (Message "unsupported %s argument %#v, only string, hex and base64 are supported"
                    [name; value]))).
Proof.
  intros value. unfold getTransformValue.
  replace (if String.eqb argvalue "" then Getenv env envvar else argvalue)
    with value.
  2:{ unfold value, Getenv. destruct argvalue as [| c a]; [| reflexivity].
      cbn [String.eqb]. destruct (env !! envvar); reflexivity. }
  clearbody value. repeat split.
  - cbn [In]. intros [<- | [<- | [<- | []]]]; reflexivity.
  - intros ->. reflexivity.
  - intros Hne Hnot. cbn [In] in Hnot.
    destruct (String.eqb_spec value "string") as [-> | _]; [tauto |].
    destruct (String.eqb_spec value "hex") as [-> | _]; [tauto |].
    destruct (String.eqb_spec value "base64") as [-> | _]; [tauto |].
    destruct (String.eqb_spec value "") as [-> | _]; [contradiction |].
    reflexivity.
Qed.

Lemma getTransformValue_correct_witness :
  getTransformValue (<["KT_FORMAT" := "hex"]> ∅) "format" "KT_FORMAT" "" = ("hex", None) /\
  getTransformValue ∅ "format" "KT_FORMAT" "" = ("string", None) /\
  getTransformValue ∅ "format" "KT_FORMAT" "json" =
    (EmptyString,
     Some (Message "unsupported %s argument %#v, only string, hex and base64 are supported"
                   ["format"; "json"])).
Proof.
  destruct (getTransformValue_correct (<["KT_FORMAT" := "hex"]> ∅) "format" "KT_FORMAT" "")
    as (Hset & _ & _).
  destruct (getTransformValue_correct ∅ "format" "KT_FORMAT" "") as (_ & Hunset & _).
  destruct (getTransformValue_correct ∅ "format" "KT_FORMAT" "json") as (_ & _ & Hbad).
  split; [| split].
  - apply Hset. vm_compute. tauto.
  - apply Hunset. reflexivity.
  - apply Hbad; [discriminate | not_in_literals].
Defined.

(** ** The output loop *)



(** * Further properties of the code *)

(** ** The hash as a polynomial *)

Lemma wrap32_0 : wrap32 0 = 0.
Proof. reflexivity. Qed.

Lemma wrap32_decomp (z : Z) : exists k, wrap32 z = z + k * modulus.
Proof.
  exists (- ((z - min_int) / modulus)). unfold wrap32.
  rewrite Z.mod_eq by (unfold modulus; lia). ring.
Qed.

Lemma wrap32_add_multiple (z k : Z) : wrap32 (z + k * modulus) = wrap32 z.
Proof. apply wrap32_congr. apply Z_mod_plus_full. Qed.

Local Opaque wrap32.

Lemma String_hashCode_from (value : list Z) (x : Z) :
  fold_left (fun h c => wrap32 (31 * h + c)) value (wrap32 x)
  = wrap32 (x * 31 ^ Z.of_nat (List.length value) + polynomial value).
Proof.
  revert x. induction value as [| c value IH]; intros x.
  - cbn [fold_left polynomial List.length]. f_equal. cbn. lia.
  - cbn [fold_left polynomial List.length]. rewrite IH.
    destruct (wrap32_decomp x) as [k ->].
    rewrite Nat2Z.inj_succ, Z.pow_succ_r by lia.
    set (P := 31 ^ Z.of_nat (List.length value)).
    replace ((31 * (x + k * modulus) + c) * P + polynomial value)
      with (x * (31 * P) + (c * P + polynomial value) + (31 * k * P) * modulus)
      by ring.
    apply wrap32_add_multiple.
Qed.

Local Transparent wrap32.

Lemma String_hashCode_polynomial (value : list Z) :
  Jvm.String_hashCode value = wrap32 (polynomial value).
Proof.
  unfold Jvm.String_hashCode. rewrite <- wrap32_0 at 1.
  rewrite String_hashCode_from. f_equal; lia.
Qed.

(** X1: the hash of a key is the polynomial
    [s[0]*31^(n-1) + ... + s[n-1]] over the UTF-16 code units [s] of the
    code points of the key, reduced to a 32-bit integer. *)
Theorem hashCode_polynomial (key : string) :
  hashCode key
  = wrap32 (polynomial (flat_map Jvm.toChars (Utf8.range key))).
Proof.
  rewrite <- String_hashCode_polynomial.
  unfold hashCode, Jvm.String_hashCode. symmetry.
  apply String_hashCode_fold, range_valid.
Qed.

(** ** Keys of ASCII characters *)

Lemma bytes_app (s t : string) : bytes (s +:+ t) = bytes s ++ bytes t.
Proof.
  induction s as [| c s IH]; [reflexivity |].
  change (bytes (String c (s +:+ t)) = bytes (String c s) ++ bytes t).
  cbn [bytes app]. rewrite IH. reflexivity.
Qed.

Lemma range_from_ascii (s : string) (rest : list Z) :
  all_chars ascii_byte s = true ->
  Utf8.range_from 0 (bytes s ++ rest) = bytes s ++ Utf8.range_from 0 rest.
Proof.
  induction s as [| c s IH]; intros Hs; [reflexivity |].
  cbn [all_chars] in Hs. apply andb_true_iff in Hs. destruct Hs as [Hc Hs].
  cbn [bytes app Utf8.range_from]. unfold Utf8.next_rune.
  unfold ascii_byte in Hc. change Utf8.runeSelf with 0x80. rewrite Hc.
  cbn [Nat.pred]. rewrite IH by exact Hs. reflexivity.
Qed.

Lemma range_ascii (s : string) :
  all_chars ascii_byte s = true -> Utf8.range s = bytes s.
Proof.
  intros Hs. unfold Utf8.range.
  rewrite <- (app_nil_r (bytes s)) at 1.
  rewrite range_from_ascii by exact Hs. apply app_nil_r.
Qed.

Lemma bytes_ascii_bmp (s : string) :
  all_chars ascii_byte s = true -> flat_map Jvm.toChars (bytes s) = bytes s.
Proof.
  induction s as [| c s IH]; intros Hs; [reflexivity |].
  cbn [all_chars] in Hs. apply andb_true_iff in Hs. destruct Hs as [Hc Hs].
  cbn [bytes flat_map]. rewrite IH by exact Hs.
  unfold Jvm.toChars. unfold ascii_byte in Hc.
  assert ((byte_val c <? 0x10000) = true) as -> by lia. reflexivity.
Qed.

(** X2: on a key of ASCII characters the loop of [hashCode] sees the
    bytes of the key, and the hash is the polynomial over these bytes. *)
Theorem hashCode_ascii (key : string) :
  all_chars ascii_byte key = true ->
  Utf8.range key = bytes key /\
  hashCode key = Jvm.String_hashCode (bytes key) /\
  hashCode key = wrap32 (polynomial (bytes key)).
Proof.
  intros Hkey. split; [apply range_ascii, Hkey |].
  assert (hashCode key = Jvm.String_hashCode (bytes key)) as Heq.
  { unfold hashCode, Jvm.String_hashCode. symmetry.
    rewrite <- (bytes_ascii_bmp key Hkey) at 1.
    rewrite <- (range_ascii key Hkey).
    apply String_hashCode_fold, range_valid. }
  split; [exact Heq |]. rewrite Heq. apply String_hashCode_polynomial.
Qed.

Lemma hashCode_ascii_witness :
  hashCode "kafka" = wrap32 (polynomial [107; 97; 102; 107; 97]).
Proof.
  destruct (hashCode_ascii "kafka" ltac:(reflexivity)) as (_ & _ & H). exact H.
Defined.

Lemma hashCode_app_ascii (a t : string) :
  all_chars ascii_byte a = true ->
  hashCode (a +:+ t) = fold_left hashCode_step (Utf8.range t) (hashCode a).
Proof.
  intros Ha. unfold hashCode at 1. unfold Utf8.range at 1.
  rewrite bytes_app, range_from_ascii by exact Ha.
  rewrite fold_left_app. unfold hashCode. rewrite (range_ascii a Ha). reflexivity.
Qed.

(** X3: two ASCII keys of equal hash keep equal hashes, and fall in the
    same partition, when the same text is appended to both. *)
Theorem hashCode_collision_extends (a b t : string) (n : Z) :
  all_chars ascii_byte a = true ->
  all_chars ascii_byte b = true ->
  hashCode a = hashCode b ->
  hashCode (a +:+ t) = hashCode (b +:+ t) /\
  hashCodePartition (a +:+ t) n = hashCodePartition (b +:+ t) n.
Proof.
  intros Ha Hb Heq.
  assert (hashCode (a +:+ t) = hashCode (b +:+ t)) as H
    by (rewrite !hashCode_app_ascii by assumption; rewrite Heq; reflexivity).
  split; [exact H |]. unfold hashCodePartition. rewrite H. reflexivity.
Qed.

Lemma hashCode_collision_extends_witness :
  hashCode "Aa-topic-key" = hashCode "BB-topic-key" /\
  hashCodePartition "Aa-topic-key" 12 = hashCodePartition "BB-topic-key" 12.
Proof.
  apply (hashCode_collision_extends "Aa" "BB" "-topic-key" 12); reflexivity.
Defined.

(** X4: on 32-bit integers [kafkaAbs] does not see the sign of its
    argument (negation taken with wrap-around), and applying it twice is
    applying it once. *)
Theorem kafkaAbs_even_idempotent (i : Z) :
  in_range i ->
  kafkaAbs (wrap32 (- i)) = kafkaAbs i /\
  kafkaAbs (kafkaAbs i) = kafkaAbs i.
Proof.
  intros Hi. pose proof (kafkaAbs_nonneg i Hi) as Hnn.
  assert (in_range (kafkaAbs i)) as Hr
    by (unfold in_range, min_int, max_int in *; lia).
  split.
  - rewrite (kafkaAbs_spec i Hi).
    rewrite (kafkaAbs_spec (wrap32 (- i)) (wrap32_in_range _)).
    destruct (i =? min_int) eqn:Hmin.
    + apply Z.eqb_eq in Hmin. subst i. reflexivity.
    + apply Z.eqb_neq in Hmin.
      rewrite wrap32_id by (unfold in_range, min_int, max_int in *; lia).
      destruct (- i =? min_int) eqn:Hmin'.
      * apply Z.eqb_eq in Hmin'. unfold in_range, min_int, max_int in *. lia.
      * lia.
  - rewrite (kafkaAbs_spec (kafkaAbs i) Hr).
    destruct (kafkaAbs i =? min_int) eqn:Hmin.
    + apply Z.eqb_eq in Hmin. unfold min_int, max_int in *. lia.
    + lia.
Qed.

Lemma kafkaAbs_even_idempotent_witness :
  kafkaAbs (wrap32 (- -7)) = kafkaAbs (-7) /\ kafkaAbs (kafkaAbs (-7)) = kafkaAbs (-7).
Proof.
  apply (kafkaAbs_even_idempotent (-7)). unfold in_range, min_int, max_int. lia.
Defined.

(** ** Splitting and sanitizing *)

Lemma Split_not_nil (u : string) (sep : ascii) :
  exists s0 rest, Split u sep = s0 :: rest.
Proof.
  destruct (Split_shape u sep) as [[_ H] | (pre & seg & s0 & rest & _ & _ & H)];
    rewrite H; eauto.
Qed.

Lemma occurs_app_sep (pre u : string) (sep : ascii) :
  occurs sep (pre +:+ String sep u) = true.
Proof.
  induction pre as [| c pre IH].
  - change (occurs sep (String sep u) = true). cbn [occurs].
    rewrite Ascii.eqb_refl. reflexivity.
  - change (occurs sep (String c (pre +:+ String sep u)) = true).
    cbn [occurs]. rewrite IH. apply orb_true_r.
Qed.

Lemma Split_no_sep (u : string) (sep : ascii) :
  occurs sep u = false -> Split u sep = [u].
Proof.
  intros Hno.
  destruct (Split_shape u sep) as [[_ H] | (pre & seg & s0 & rest & Hu & _ & _)];
    [exact H |].
  rewrite Hu, occurs_app_sep in Hno. discriminate.
Qed.

Lemma last_Split_cons (c sep : ascii) (s : string) :
  occurs sep s = true ->
  List.last (Split (String c s) sep) EmptyString = List.last (Split s sep) EmptyString.
Proof.
  intros Hocc.
  destruct (Split_shape s sep) as [[Hno _] | (pre & seg & s0 & rest & _ & _ & H)];
    [congruence |].
  cbn [Split]. rewrite H.
  destruct (Ascii.eqb c sep).
  - rewrite last_segment.
    change (EmptyString :: s0 :: rest ++ [seg])
      with (EmptyString :: (s0 :: rest) ++ [seg]).
    apply last_segment.
  - rewrite !last_segment. reflexivity.
Qed.

Lemma last_Split_strip (pre u : string) (sep : ascii) :
  List.last (Split (pre +:+ String sep u) sep) EmptyString
  = List.last (Split u sep) EmptyString.
Proof.
  induction pre as [| c pre IH].
  - change (List.last (Split (String sep u) sep) EmptyString
            = List.last (Split u sep) EmptyString).
    cbn [Split]. rewrite Ascii.eqb_refl.
    destruct (Split_not_nil u sep) as (s0 & rest & ->). reflexivity.
  - change (List.last (Split (String c (pre +:+ String sep u)) sep) EmptyString
            = List.last (Split u sep) EmptyString).
    rewrite last_Split_cons by apply occurs_app_sep. exact IH.
Qed.

(** X5: whatever stands before a backslash, the backslash included, has
    no effect on the result of [sanitizeUsername]; a name that ends with a
    backslash is sanitized to the empty string. *)
Theorem sanitizeUsername_strips_prefix (pre u : string) :
  sanitizeUsername (pre +:+ String backslash u) = sanitizeUsername u /\
  sanitizeUsername (pre +:+ String backslash EmptyString) = EmptyString.
Proof.
  unfold sanitizeUsername. rewrite !last_Split_strip. split; reflexivity.
Qed.

(** X6: the names that [sanitizeUsername] leaves as they are are exactly
    those made of characters of [[A-Za-z0-9_-]] only. *)
Theorem sanitizeUsername_fixed_points (u : string) :
  sanitizeUsername u = u <-> all_chars client_id_byte u = true.
Proof.
  split.
  - intros Hfix. rewrite <- Hfix. unfold sanitizeUsername.
    rewrite ReplaceAllString_keep. apply keep_all_chars.
  - intros Hall. unfold sanitizeUsername.
    rewrite Split_no_sep
      by (apply (all_chars_no_occurrence client_id_byte); [reflexivity | exact Hall]).
    cbn [List.last]. rewrite ReplaceAllString_keep. apply keep_id, Hall.
Qed.

Lemma sanitizeUsername_fixed_points_witness :
  sanitizeUsername "jane_doe-01" = "jane_doe-01" /\
  all_chars client_id_byte (sanitizeUsername "jane_doe-01") = true.
Proof.
  assert (sanitizeUsername "jane_doe-01" = "jane_doe-01") as Hfix
    by (apply (proj2 (sanitizeUsername_fixed_points "jane_doe-01")); reflexivity).
  split; [exact Hfix |].
  rewrite Hfix. apply (proj1 (sanitizeUsername_fixed_points "jane_doe-01")), Hfix.
Defined.

Lemma Join_cons (a b : string) (l : list string) (sep : ascii) :
  Join (a :: b :: l) sep = a +:+ String sep (Join (b :: l) sep).
Proof. reflexivity. Qed.

(** X7: the segments [Split] cuts a string into hold no separator, there
    is at least one of them, and joining them with the separator gives the
    string back. *)
Theorem Split_Join (u : string) (sep : ascii) :
  Join (Split u sep) sep = u /\
  Forall (fun seg => occurs sep seg = false) (Split u sep) /\
  (1 <= List.length (Split u sep))%nat.
Proof.
  induction u as [| c u (IHjoin & IHno & IHlen)].
  - repeat split; [repeat constructor | cbn; lia].
  - cbn [Split]. destruct (Split_not_nil u sep) as (s0 & rest & Hsplit).
    rewrite Hsplit in *. destruct (Ascii.eqb c sep) eqn:Hc.
    + apply Ascii.eqb_eq in Hc. subst c. split; [| split].
      * rewrite Join_cons, IHjoin. reflexivity.
      * constructor; [reflexivity | exact IHno].
      * cbn [List.length]. lia.
    + split; [| split].
      * destruct rest as [| s1 rest].
        -- cbn [Join] in *. rewrite IHjoin. reflexivity.
        -- rewrite Join_cons in *. rewrite <- IHjoin. reflexivity.
      * inversion IHno as [| x l Hx Hl]; subst.
        constructor; [cbn [occurs]; rewrite Hc, Hx; reflexivity | exact Hl].
      * cbn [List.length]. lia.
Qed.

(** ** The random token generator *)

Lemma Sprintf_x_app (a b : list ascii) :
  Sprintf_x (a ++ b) = Sprintf_x a +:+ Sprintf_x b.
Proof.
  induction a as [| x a IH]; [reflexivity |].
  cbn [app Sprintf_x]. rewrite IH. reflexivity.
Qed.

Lemma prefix_app_le (n : nat) (s t : string) :
  (n <= String.length s)%nat -> prefix n (s +:+ t) = prefix n s.
Proof.
  revert s. induction n as [| n IH]; intros s Hn.
  - destruct s, t; reflexivity.
  - destruct s as [| c s]; cbn [String.length] in Hn; [lia |].
    change (prefix (S n) (String c (s +:+ t)) = prefix (S n) (String c s)).
    cbn [prefix]. rewrite IH by lia. reflexivity.
Qed.

Lemma prefix_prefix (m n : nat) (s : string) :
  (m <= n)%nat -> prefix m (prefix n s) = prefix m s.
Proof.
  revert n s. induction m as [| m IH]; intros n s Hmn.
  - destruct (prefix n s), s; reflexivity.
  - destruct n as [| n]; [lia |]. destruct s as [| c s]; [reflexivity |].
    cbn [prefix]. rewrite IH by lia. reflexivity.
Qed.

Lemma Read_app (rand_New : Z -> nat -> ascii) (seed : Z) (a b : nat) :
  Read rand_New seed (a + b)
  = Read rand_New seed a ++ map (rand_New seed) (seq a b).
Proof. unfold Read. rewrite seq_app, map_app. reflexivity. Qed.

Lemma Read_ext (src1 src2 : Z -> nat -> ascii) (seed1 seed2 : Z) (k : nat) :
  (forall i, (i < k)%nat -> src1 seed1 i = src2 seed2 i) ->
  Read src1 seed1 k = Read src2 seed2 k.
Proof.
  intros Hagree. unfold Read. apply map_ext_in.
  intros i Hi. apply in_seq in Hi. apply Hagree. lia.
Qed.

Lemma randomString_value (rand_New : Z -> nat -> ascii) (now n : Z) :
  0 <= n ->
  randomString rand_New now n
  = Some (prefix (Z.to_nat n) (Sprintf_x (Read rand_New now (Z.to_nat n)))).
Proof.
  intros Hn. unfold randomString, slice_to.
  destruct (n <? 0) eqn:Hneg; [apply Z.ltb_lt in Hneg; lia |].
  rewrite Sprintf_x_length, Read_length.
  destruct (Nat.leb_spec (Z.to_nat n) (2 * Z.to_nat n)); [reflexivity | lia].
Qed.

(** The token is made from the first [k] bytes drawn as soon as
    [n <= 2 * k]. *)
Lemma randomString_first_bytes (rand_New : Z -> nat -> ascii) (now n : Z) (k : nat) :
  0 <= n -> (k <= Z.to_nat n)%nat -> (Z.to_nat n <= 2 * k)%nat ->
  randomString rand_New now n
  = Some (prefix (Z.to_nat n) (Sprintf_x (Read rand_New now k))).
Proof.
  intros Hn Hk Hn2. rewrite randomString_value by exact Hn.
  replace (Z.to_nat n) with (k + (Z.to_nat n - k))%nat at 2 by lia.
  rewrite Read_app, Sprintf_x_app, prefix_app_le; [reflexivity |].
  rewrite Sprintf_x_length, Read_length. exact Hn2.
Qed.



(** X9: the token of length [n] depends on the first [ceil(n/2)] random
    bytes only: two generators that agree on them give the same token. *)
Theorem randomString_uses_half_the_bytes
    (src1 src2 : Z -> nat -> ascii) (now1 now2 n : Z) :
  0 <= n ->
  (forall i, (i < Z.to_nat ((n + 1) / 2))%nat -> src1 now1 i = src2 now2 i) ->
  randomString src1 now1 n = randomString src2 now2 n.
Proof.
  intros Hn Hagree.
  assert (Z.to_nat ((n + 1) / 2) <= Z.to_nat n)%nat as Hk
    by (Z.div_mod_to_equations; lia).
  assert (Z.to_nat n <= 2 * Z.to_nat ((n + 1) / 2))%nat as Hn2
    by (Z.div_mod_to_equations; lia).
  rewrite (randomString_first_bytes src1 now1 n _ Hn Hk Hn2).
  rewrite (randomString_first_bytes src2 now2 n _ Hn Hk Hn2).
  rewrite (Read_ext src1 src2 now1 now2 _ Hagree). reflexivity.
Qed.

Lemma randomString_uses_half_the_bytes_witness :
  randomString (fun seed i => ascii_of_nat (Z.to_nat seed + 37 * i)) 200 5
  = randomString (fun seed i => if (i <? 3)%nat
                                then ascii_of_nat (Z.to_nat seed + 37 * i)
                                else "000"%char) 200 5.
Proof.
  apply randomString_uses_half_the_bytes; [lia |].
  intros i Hi. change (Z.to_nat ((5 + 1) / 2)) with 3%nat in Hi.
  destruct (Nat.ltb_spec i 3); [reflexivity | lia].
Defined.

(** X10: of two tokens made from the same generator and the same time,
    the shorter is the beginning of the longer. *)
Theorem randomString_shorter_is_prefix
    (rand_New : Z -> nat -> ascii) (now m n : Z) (tm tn : string) :
  0 <= m <= n ->
  randomString rand_New now m = Some tm ->
  randomString rand_New now n = Some tn ->
  tm = prefix (Z.to_nat m) tn.
Proof.
  intros Hmn Hm Hn.
  rewrite randomString_value in Hm, Hn by lia.
  injection Hm as <-. injection Hn as <-.
  rewrite prefix_prefix by lia.
  replace (Z.to_nat n) with (Z.to_nat m + (Z.to_nat n - Z.to_nat m))%nat by lia.
  rewrite Read_app, Sprintf_x_app, prefix_app_le; [reflexivity |].
  rewrite Sprintf_x_length, Read_length. lia.
Qed.

Lemma randomString_shorter_is_prefix_witness :
  "c8e" = prefix (Z.to_nat 3) "c8ed1237".
Proof.
  apply (randomString_shorter_is_prefix
           (fun seed i => ascii_of_nat (Z.to_nat seed + 37 * i)) 200 3 8
           "c8e" "c8ed1237"); [lia | reflexivity | reflexivity].
Defined.

(** ** The version resolver *)

(** X11: two different inputs are resolved to the same version only when
    they are the empty string and "v0.10.0.0", which both give
    [V0_10_0_0]. *)
Theorem kafkaVersion_injective (s1 s2 : string) (v : KafkaVersion) :
  kafkaVersion s1 = Returns v ->
  kafkaVersion s2 = Returns v ->
  s1 = s2 \/
  (v = V0_10_0_0 /\ In s1 [""; "v0.10.0.0"] /\ In s2 [""; "v0.10.0.0"]).
Proof.
  intros H1 H2.
  pose proof (kafkaVersion_returns s1 v H1) as I1.
  pose proof (kafkaVersion_returns s2 v H2) as I2.
  unfold version_strings in I1, I2. cbn [In] in I1, I2.
  repeat (destruct I1 as [I1 | I1]; [subst s1 |]); [.. | destruct I1];
    (repeat (destruct I2 as [I2 | I2]; [subst s2 |]); [.. | destruct I2]);
    cbv in H1, H2;
    first [ left; reflexivity
          | congruence
          | right; split; [congruence | cbn [In]; split; auto] ].
Qed.

Lemma kafkaVersion_injective_witness :
  "" = "v0.10.0.0" \/
  (V0_10_0_0 = V0_10_0_0 /\ In "" [""; "v0.10.0.0"] /\ In "v0.10.0.0" [""; "v0.10.0.0"]).
Proof.
  apply (kafkaVersion_injective "" "v0.10.0.0" V0_10_0_0); reflexivity.
Defined.

(** X22: the message of the resolver on an unsupported input lists, after
    "supported:", exactly the strings other than the empty one that the
    resolver accepts, in the order of its cases. *)
Theorem kafkaVersion_message_lists_versions :
  unsupported_version_format
  = "unsupported kafka version %#v - supported: "
    +:+ String.concat ", " version_strings /\
  (forall s, In s version_strings <->
             s <> EmptyString /\ exists v, kafkaVersion s = Returns v).
Proof.
  split; [reflexivity |]. intros s. split.
  - unfold version_strings. cbn [In]. intros Hin.
    repeat (destruct Hin as [<- | Hin]; [split; [discriminate | eexists; reflexivity] |]).
    destruct Hin.
  - intros (Hne & v & Hv).
    destruct (kafkaVersion_returns s v Hv) as [He | Hin]; [contradiction | exact Hin].
Qed.

Lemma kafkaVersion_message_lists_versions_witness :
  "v0.9.0.1" <> EmptyString /\ exists v, kafkaVersion "v0.9.0.1" = Returns v.
Proof.
  apply (proj1 (proj2 kafkaVersion_message_lists_versions "v0.9.0.1")).
  unfold version_strings. cbn [In]. auto 8.
Defined.

(** ** The transform selector *)

Lemma getTransformValue_cases (env : gmap string string)
    (name envvar argvalue : string) :
  exists value,
    (In value ["string"; "hex"; "base64"] /\
     getTransformValue env name envvar argvalue = (value, None)) \/
    (value = EmptyString /\
     getTransformValue env name envvar argvalue = ("string", None)) \/
    (value <> EmptyString /\ ~ In value ["string"; "hex"; "base64"] /\
     getTransformValue env name envvar argvalue
     = (EmptyString, Some (Message unsupported_transform_format [name; value]))).
Proof.
  unfold getTransformValue.
  set (value := if String.eqb argvalue "" then Getenv env envvar else argvalue).
  exists value. clearbody value. cbn [In].
  destruct (String.eqb_spec value "string") as [-> | H1]; [left; auto |].
  destruct (String.eqb_spec value "hex") as [-> | H2]; [left; auto |].
  destruct (String.eqb_spec value "base64") as [-> | H3]; [left; auto |].
  destruct (String.eqb_spec value "") as [-> | H4]; [right; left; auto |].
  right; right. cbn [orb]. split; [exact H4 | split; [| reflexivity]].
  intros [E | [E | [E | []]]]; congruence.
Qed.

(** X12: a flag value that is not empty decides alone: the environment is
    not consulted, be the flag value supported or not. *)
Theorem getTransformValue_flag_overrides (env env' : gmap string string)
    (name envvar envvar' argvalue : string) :
  argvalue <> EmptyString ->
  getTransformValue env name envvar argvalue
  = getTransformValue env' name envvar' argvalue.
Proof.
  intros Hne. unfold getTransformValue.
  destruct (String.eqb_spec argvalue "") as [He | _]; [contradiction | reflexivity].
Qed.

Lemma getTransformValue_flag_overrides_witness :
  getTransformValue (<["KT_FORMAT" := "hex"]> ∅) "format" "KT_FORMAT" "json"
  = getTransformValue ∅ "format" "KT_OTHER" "json".
Proof.
  apply (getTransformValue_flag_overrides
           (<["KT_FORMAT" := "hex"]> ∅) ∅ "format" "KT_FORMAT" "KT_OTHER" "json").
  discriminate.
Defined.

(** X13: when the selector returns no error its result is one of
    "string", "hex" and "base64"; when it returns an error its result is
    the empty string and the error is made from the option name and a
    value that is neither empty nor one of the three. *)
Theorem getTransformValue_result (env : gmap string string)
    (name envvar argvalue : string) :
  match getTransformValue env name envvar argvalue with
  | (v, None) => In v ["string"; "hex"; "base64"]
  | (v, Some m) =>
    v = EmptyString /\
    exists bad,
      bad <> EmptyString /\ ~ In bad ["string"; "hex"; "base64"] /\
      m = Message unsupported_transform_format [name; bad]
  end.
Proof.
  destruct (getTransformValue_cases env name envvar argvalue)
    as (value & [[Hin ->] | [[_ ->] | (Hne & Hnot & ->)]]).
  - exact Hin.
  - cbn [In]. auto.
  - split; [reflexivity |]. exists value. auto.
Qed.

(** X14: a value the selector has returned without error is returned
    again when it is given as the flag, whatever the environment. *)
Theorem getTransformValue_stable (env env' : gmap string string)
    (name name' envvar envvar' argvalue v : string) :
  getTransformValue env name envvar argvalue = (v, None) ->
  getTransformValue env' name' envvar' v = (v, None).
Proof.
  intros Hv.
  assert (In v ["string"; "hex"; "base64"]) as Hin.
  { destruct (getTransformValue_cases env name envvar argvalue)
      as (value & [[Hin H] | [[_ H] | (_ & _ & H)]]);
      rewrite H in Hv; [| | discriminate].
    - injection Hv as <-. exact Hin.
    - injection Hv as <-. cbn [In]. auto. }
  cbn [In] in Hin. destruct Hin as [<- | [<- | [<- | []]]]; reflexivity.
Qed.

Lemma getTransformValue_stable_witness :
  getTransformValue ∅ "other" "KT_OTHER" "hex" = ("hex", None).
Proof.
  apply (getTransformValue_stable (<["KT_FORMAT" := "hex"]> ∅) ∅
           "format" "other" "KT_FORMAT" "KT_OTHER" "" "hex").
  reflexivity.
Defined.

(** ** The output loop *)

Lemma print_loop_app {value : Type} (GoString : value -> string)
    (marshal : value -> string + string)
    (a b : list (Printer.printContext value)) (t : Printer.trace) :
  Printer.print_loop value GoString marshal (a ++ b) t
  = match Printer.print_loop value GoString marshal a t with
    | Returns t1 => Printer.print_loop value GoString marshal b t1
    | Exits status msg => Exits status msg
    end.
Proof.
  revert t. induction a as [| ctx a IH]; intros t; [reflexivity |].
  cbn [app Printer.print_loop].
  destruct (Printer.print_one value GoString marshal ctx t) as [t1 | status msg];
    [apply IH | reflexivity].
Qed.

Lemma print_loop_extends {value : Type} (GoString : value -> string)
    (marshal : value -> string + string)
    (b : list (Printer.printContext value)) (t1 t2 : Printer.trace) :
  Printer.print_loop value GoString marshal b t1 = Returns t2 ->
  exists texts channels,
    Printer.stdout t2 = Printer.stdout t1 ++ texts /\
    Printer.closed t2 = Printer.closed t1 ++ channels /\
    List.length texts = List.length b /\ List.length channels = List.length b.
Proof.
  revert t1. induction b as [| ctx b IH]; intros t1 Hrun.
  - cbn [Printer.print_loop] in Hrun. injection Hrun as <-.
    exists [], []. rewrite !app_nil_r. auto.
  - cbn [Printer.print_loop] in Hrun. unfold Printer.print_one in Hrun.
    destruct (marshal (Printer.output value ctx)) as [buf | err];
      [| discriminate Hrun].
    destruct (IH _ Hrun) as (texts & channels & Hout & Hclosed & Hl1 & Hl2).
    cbn [Printer.stdout Printer.closed] in Hout, Hclosed.
    exists ((buf +:+ newline) :: texts), (Printer.done value ctx :: channels).
    rewrite Hout, Hclosed, <- !app_assoc. cbn [List.length]. auto.
Qed.





(** X17: what [print] has written and closed for the records received so
    far is the beginning of what it has written and closed once more
    records have been received: later records only add, one text and one
    channel each. *)
Theorem print_only_appends {value : Type} (GoString : value -> string)
    (Marshal MarshalIndent : value -> string + string)
    (a b : list (Printer.printContext value)) (pretty isTerminal : bool)
    (t2 : Printer.trace) :
  Printer.print value GoString Marshal MarshalIndent (a ++ b) pretty isTerminal
  = Returns t2 ->
  exists t1 texts channels,
    Printer.print value GoString Marshal MarshalIndent a pretty isTerminal
    = Returns t1 /\
    Printer.stdout t2 = Printer.stdout t1 ++ texts /\
    Printer.closed t2 = Printer.closed t1 ++ channels /\
    List.length texts = List.length b /\ List.length channels = List.length b.
Proof.
  unfold Printer.print. rewrite print_loop_app. intros Hrun.
  destruct (Printer.print_loop value GoString _ a _) as [t1 | status msg];
    [| discriminate Hrun].
  destruct (print_loop_extends GoString _ b t1 t2 Hrun)
    as (texts & channels & H).
  exists t1, texts, channels. split; [reflexivity | exact H].
Qed.

Lemma print_only_appends_witness :
  exists t1 texts channels,
    Printer.print nat (fun _ => "n") (fun n => inl (String (ascii_of_nat (48 + n)) ""))
      (fun n => inr "unused")
      [ {| Printer.output := 1%nat; Printer.done := 7%nat |} ] false false
    = Returns t1 /\
    ["1" +:+ newline; "2" +:+ newline] = Printer.stdout t1 ++ texts /\
    [7%nat; 5%nat] = Printer.closed t1 ++ channels /\
    List.length texts = 1%nat /\ List.length channels = 1%nat.
Proof.
  apply (print_only_appends (fun _ => "n")
           (fun n => inl (String (ascii_of_nat (48 + n)) "")) (fun n => inr "unused")
           [ {| Printer.output := 1%nat; Printer.done := 7%nat |} ]
           [ {| Printer.output := 2%nat; Printer.done := 5%nat |} ] false false
           {| Printer.stdout := ["1" +:+ newline; "2" +:+ newline];
              Printer.closed := [7%nat; 5%nat] |}).
  reflexivity.
Defined.

(** ** The command dispatcher *)

Lemma init_begins_with_usage (buildVersion buildTime : string) :
  string_prefix usageMessage (init buildVersion buildTime).
Proof.
  unfold init, string_prefix.
  destruct ((0 <? String.length buildTime)%nat && (0 <? String.length buildVersion)%nat).
  - eexists. reflexivity.
  - exists EmptyString. clear. induction usageMessage as [| c s IH]; [reflexivity |].
    change (String c s = String c (s +:+ EmptyString)). f_equal. exact IH.
Qed.

(** X18: [main] runs a command exactly when the argument vector holds, after
    the program name, one of the verbs "consume", "produce", "topic" and
    "group"; the command is the one of the verb and it is run on the
    arguments after the verb.  In every other case the process exits with
    status [1] on the usage message, which begins with the fixed text. *)
Theorem main_dispatch (buildVersion buildTime : string) (Args : list string) :
  (forall cmd rest,
      main buildVersion buildTime Args = Returns (cmd, rest) <->
      exists prog verb, Args = prog :: verb :: rest /\ In (verb, cmd) verbs) /\
  ((forall prog verb rest cmd, Args = prog :: verb :: rest -> ~ In (verb, cmd) verbs) ->
   main buildVersion buildTime Args
   = Exits 1 (Message (init buildVersion buildTime +:+ newline) [])) /\
  string_prefix usageMessage (init buildVersion buildTime).
Proof.
  split; [| split; [| apply init_begins_with_usage]].
  - intros cmd rest. unfold main, parseArgs, verbs.
    destruct Args as [| prog [| verb args]]; cbn [List.length Nat.ltb Nat.leb nth skipn].
    + split; [discriminate | intros (p & v & H & _); discriminate].
    + split; [discriminate | intros (p & v & H & _); discriminate].
    + split.
      * intros Hrun. exists prog, verb. cbn [In].
        destruct (String.eqb_spec verb "consume") as [-> | _];
          [injection Hrun as <- <-; auto |].
        destruct (String.eqb_spec verb "produce") as [-> | _];
          [injection Hrun as <- <-; auto |].
        destruct (String.eqb_spec verb "topic") as [-> | _];
          [injection Hrun as <- <-; auto |].
        destruct (String.eqb_spec verb "group") as [-> | _];
          [injection Hrun as <- <-; auto 6 |].
        discriminate.
      * intros (p & v & Hargs & Hin). injection Hargs as <- <- <-.
        cbn [In] in Hin.
        destruct Hin as [H | [H | [H | [H | []]]]]; injection H as <- <-; reflexivity.
  - intros Hnone. unfold main, parseArgs.
    destruct Args as [| prog [| verb args]]; cbn [List.length Nat.ltb Nat.leb nth];
      [reflexivity | reflexivity |].
    unfold verbs in Hnone. cbn [In] in Hnone.
    destruct (String.eqb_spec verb "consume") as [-> | _];
      [exfalso; eapply Hnone; eauto |].
    destruct (String.eqb_spec verb "produce") as [-> | _];
      [exfalso; eapply Hnone; eauto |].
    destruct (String.eqb_spec verb "topic") as [-> | _];
      [exfalso; eapply Hnone; eauto |].
    destruct (String.eqb_spec verb "group") as [-> | _];
      [exfalso; eapply Hnone; eauto 6 |].
    reflexivity.
Qed.

Lemma main_dispatch_witness :
  main "1.2" "today" ["kt"; "topic"; "-brokers"; "localhost"]
  = Returns (topicCmd, ["-brokers"; "localhost"]) /\
  main "1.2" "today" ["kt"; "Topic"]
  = Exits 1 (Message (init "1.2" "today" +:+ newline) []).
Proof.
  split.
  - apply (proj1 (main_dispatch "1.2" "today" ["kt"; "topic"; "-brokers"; "localhost"])).
    exists "kt", "topic". split; [reflexivity | unfold verbs; cbn [In]; auto].
  - apply (proj1 (proj2 (main_dispatch "1.2" "today" ["kt"; "Topic"]))).
    intros prog verb rest cmd Hargs. injection Hargs as <- <- <-.
    unfold verbs. cbn [In].
    intros [H | [H | [H | [H | []]]]]; discriminate H.
Defined.

(** ** Reading the standard input by lines *)

Lemma Scan_end (max : nat) (cur : string) :
  Scan max cur EmptyString
  = if (max <=? String.length cur)%nat then ([], Some ErrTooLong)
    else (match cur with EmptyString => [] | _ => [dropCR cur] end, None).
Proof. reflexivity. Qed.

Lemma Scan_byte (max : nat) (cur : string) (c : ascii) (input : string) :
  Scan max cur (String c input)
  = if (max <=? String.length cur)%nat then ([], Some ErrTooLong)
    else if Ascii.eqb c line_feed then
           let '(texts, err) := Scan max EmptyString input in
           (dropCR cur :: texts, err)
         else Scan max (cur +:+ String c EmptyString) input.
Proof. reflexivity. Qed.

Lemma Scan_full (max : nat) (cur input : string) :
  (max <= String.length cur)%nat -> Scan max cur input = ([], Some ErrTooLong).
Proof.
  intros Hfull. apply Nat.leb_le in Hfull.
  destruct input; [rewrite Scan_end | rewrite Scan_byte]; rewrite Hfull; reflexivity.
Qed.

Lemma length_snoc (s : string) (c : ascii) :
  String.length (s +:+ String c EmptyString) = S (String.length s).
Proof.
  induction s as [| c' s IH]; [reflexivity |].
  change (S (String.length (s +:+ String c EmptyString)) = S (S (String.length s))).
  rewrite IH. reflexivity.
Qed.

Lemma occurs_snoc (x c : ascii) (s : string) :
  occurs x (s +:+ String c EmptyString) = occurs x s || Ascii.eqb c x.
Proof.
  induction s as [| c' s IH].
  - change (occurs x (String c EmptyString) = false || Ascii.eqb c x).
    cbn [occurs]. rewrite orb_false_r. reflexivity.
  - change (occurs x (String c' (s +:+ String c EmptyString))
            = occurs x (String c' s) || Ascii.eqb c x).
    cbn [occurs]. rewrite IH, orb_assoc. reflexivity.
Qed.

Lemma snoc_app (s t : string) (c : ascii) :
  (s +:+ String c EmptyString) +:+ t = s +:+ String c t.
Proof.
  induction s as [| c' s IH]; [reflexivity |].
  change (String c' ((s +:+ String c EmptyString) +:+ t) = String c' (s +:+ String c t)).
  rewrite IH. reflexivity.
Qed.

Lemma dropCR_length (s : string) : (String.length (dropCR s) <= String.length s)%nat.
Proof.
  induction s as [| c s IH]; [reflexivity |].
  destruct s as [| c' s].
  - cbn [dropCR]. destruct (Ascii.eqb c carriage_return); cbn [String.length]; lia.
  - change (dropCR (String c (String c' s))) with (String c (dropCR (String c' s))).
    cbn [String.length] in *. lia.
Qed.

Lemma dropCR_occurs (x : ascii) (s : string) :
  occurs x s = false -> occurs x (dropCR s) = false.
Proof.
  induction s as [| c s IH]; [reflexivity |].
  destruct s as [| c' s].
  - cbn [dropCR]. destruct (Ascii.eqb c carriage_return); [reflexivity | auto].
  - change (dropCR (String c (String c' s))) with (String c (dropCR (String c' s))).
    intros H. cbn [occurs] in H. apply orb_false_iff in H. destruct H as [Hc Hs].
    cbn [occurs]. rewrite Hc. apply IH. exact Hs.
Qed.

Lemma dropCR_id (s : string) : occurs carriage_return s = false -> dropCR s = s.
Proof.
  induction s as [| c s IH]; [reflexivity |].
  intros H. cbn [occurs] in H. apply orb_false_iff in H. destruct H as [Hc Hs].
  destruct s as [| c' s].
  - cbn [dropCR]. rewrite Hc. reflexivity.
  - change (dropCR (String c (String c' s))) with (String c (dropCR (String c' s))).
    rewrite IH by exact Hs. reflexivity.
Qed.

Lemma Scan_texts (max : nat) (input cur : string) (texts : list string)
    (err : option string) :
  occurs line_feed cur = false ->
  Scan max cur input = (texts, err) ->
  Forall (fun text => occurs line_feed text = false /\
                      (String.length text < max)%nat) texts.
Proof.
  revert cur texts err.
  induction input as [| c input IH]; intros cur texts err Hcur Hscan.
  - rewrite Scan_end in Hscan.
    destruct (Nat.leb_spec max (String.length cur)) as [Hfull | Hroom].
    + injection Hscan as <- _. constructor.
    + pose proof (dropCR_occurs line_feed cur Hcur) as Hd1.
      pose proof (dropCR_length cur) as Hd2.
      set (d := dropCR cur) in *. clearbody d.
      destruct cur as [| c0 cur0]; injection Hscan as <- _; [constructor |].
      constructor; [split; [exact Hd1 | lia] | constructor].
  - rewrite Scan_byte in Hscan.
    destruct (Nat.leb_spec max (String.length cur)) as [Hfull | Hroom].
    + injection Hscan as <- _. constructor.
    + destruct (Ascii.eqb c line_feed) eqn:Hc.
      * destruct (Scan max EmptyString input) as [texts' err'] eqn:Hrest.
        injection Hscan as <- _. constructor.
        -- split; [apply dropCR_occurs, Hcur |].
           pose proof (dropCR_length cur). lia.
        -- apply (IH EmptyString texts' err'); [reflexivity | exact Hrest].
      * apply (IH (cur +:+ String c EmptyString) texts err); [| exact Hscan].
        rewrite occurs_snoc, Hcur, Hc. reflexivity.
Qed.

(** X19: [readStdinLines] closes [out] in every case, and every line it
    sends holds no line feed and is shorter than [max], whether the
    scanning fails or not. *)
Theorem readStdinLines_lines (stdin : string) (max : Z) (r : stdin_lines) :
  readStdinLines stdin max = Some r ->
  out_closed r = true /\
  Forall (fun text => occurs line_feed text = false /\
                      Z.of_nat (String.length text) < max) (sent r).
Proof.
  unfold readStdinLines. destruct (max <? 0) eqn:Hneg; [discriminate |].
  apply Z.ltb_ge in Hneg.
  destruct (Scan (Z.to_nat max) EmptyString stdin) as [texts err] eqn:Hscan.
  intros Hr. injection Hr as <-. cbn [out_closed sent]. split; [reflexivity |].
  pose proof (Scan_texts (Z.to_nat max) stdin EmptyString texts err eq_refl Hscan)
    as Hall.
  revert Hall. apply List.Forall_impl.
  intros text [Hlf Hlen]. split; [exact Hlf | lia].
Qed.

Lemma readStdinLines_lines_witness :
  Forall (fun text => occurs line_feed text = false /\
                      Z.of_nat (String.length text) < 4)
         ["ab"; "cd"].
Proof.
  apply (readStdinLines_lines
           (Join ["ab"; "cd" +:+ String carriage_return ""; "efgh"; "i"] line_feed) 4
           {| sent := ["ab"; "cd"]; out_closed := true;
              scan_failure := Some (Message scan_failure_format [ErrTooLong]) |}).
  reflexivity.
Defined.

Lemma Scan_lossless (max : nat) (input cur : string) (texts : list string) :
  occurs carriage_return cur = false ->
  occurs carriage_return input = false ->
  Scan max cur input = (texts, None) ->
  (texts = [] /\ cur +:+ input = EmptyString) \/
  (texts <> [] /\
   (cur +:+ input = Join texts line_feed \/
    cur +:+ input = Join texts line_feed +:+ String line_feed EmptyString)).
Proof.
  revert cur texts. induction input as [| c input IH]; intros cur texts Hcur Hin Hscan.
  - rewrite Scan_end in Hscan.
    destruct (max <=? String.length cur)%nat; [discriminate |].
    rewrite dropCR_id in Hscan by exact Hcur.
    destruct cur as [| c0 cur0]; injection Hscan as <-.
    + left. split; reflexivity.
    + right. split; [discriminate |]. left. cbn [Join].
      change (String c0 (cur0 +:+ EmptyString) = String c0 cur0). f_equal.
      clear. induction cur0 as [| c s IH]; [reflexivity |].
      change (String c (s +:+ EmptyString) = String c s). f_equal. exact IH.
  - cbn [occurs] in Hin. apply orb_false_iff in Hin. destruct Hin as [Hc Hin].
    rewrite Scan_byte in Hscan.
    destruct (max <=? String.length cur)%nat; [discriminate |].
    destruct (Ascii.eqb c line_feed) eqn:Hlf.
    + apply Ascii.eqb_eq in Hlf. subst c.
      destruct (Scan max EmptyString input) as [texts' err'] eqn:Hrest.
      injection Hscan as <- ->. right. split; [discriminate |].
      rewrite dropCR_id by exact Hcur.
      destruct (IH EmptyString texts' eq_refl Hin Hrest) as [[-> Hempty] | [Hne Hjoin]].
      * right. change (EmptyString +:+ input) with input in Hempty.
        rewrite Hempty. reflexivity.
      * change (EmptyString +:+ input) with input in Hjoin.
        destruct texts' as [| t0 texts']; [contradiction |].
        rewrite Join_cons.
        destruct Hjoin as [-> | ->]; [left; reflexivity | right].
        rewrite <- snoc_app. rewrite snoc_app.
        clear. induction cur as [| c s IH]; [reflexivity |].
        change (String c (s +:+ String line_feed
                            (Join (t0 :: texts') line_feed +:+ String line_feed EmptyString))
                = String c ((s +:+ String line_feed (Join (t0 :: texts') line_feed))
                            +:+ String line_feed EmptyString)).
        f_equal. exact IH.
    + rewrite <- snoc_app.
      apply IH; [| exact Hin | exact Hscan].
      rewrite occurs_snoc, Hcur, Hc. reflexivity.
Qed.

(** X20: when no scanning failure is reported and the input holds no
    carriage return, nothing is lost: the lines sent, joined by line
    feeds, are the input, up to one line feed at its end. *)
Theorem readStdinLines_lossless (stdin : string) (max : Z) (r : stdin_lines) :
  readStdinLines stdin max = Some r ->
  scan_failure r = None ->
  occurs carriage_return stdin = false ->
  stdin = Join (sent r) line_feed \/
  stdin = Join (sent r) line_feed +:+ String line_feed EmptyString.
Proof.
  unfold readStdinLines. destruct (max <? 0); [discriminate |].
  destruct (Scan (Z.to_nat max) EmptyString stdin) as [texts err] eqn:Hscan.
  intros Hr. injection Hr as <-. cbn [scan_failure sent].
  destruct err as [e |]; [discriminate |]. intros _ Hcr.
  destruct (Scan_lossless (Z.to_nat max) stdin EmptyString texts eq_refl Hcr Hscan)
    as [[-> Hempty] | [_ Hjoin]].
  - left. exact Hempty.
  - exact Hjoin.
Qed.

Lemma readStdinLines_lossless_witness :
  Join ["ab"; ""; "cde"; ""] line_feed = Join ["ab"; ""; "cde"] line_feed \/
  Join ["ab"; ""; "cde"; ""] line_feed
  = Join ["ab"; ""; "cde"] line_feed +:+ String line_feed EmptyString.
Proof.
  apply (readStdinLines_lossless (Join ["ab"; ""; "cde"; ""] line_feed) 4
           {| sent := ["ab"; ""; "cde"]; out_closed := true; scan_failure := None |});
    reflexivity.
Defined.

Lemma Scan_long (max : nat) (long cur rest : string) :
  occurs line_feed long = false ->
  (max <= String.length cur + String.length long)%nat ->
  Scan max cur (long +:+ rest) = ([], Some ErrTooLong).
Proof.
  revert cur. induction long as [| c long IH]; intros cur Hlf Hlen.
  - apply Scan_full. cbn [String.length] in Hlen. lia.
  - change (String c long +:+ rest) with (String c (long +:+ rest)).
    rewrite Scan_byte.
    destruct (max <=? String.length cur)%nat; [reflexivity |].
    cbn [occurs] in Hlf. apply orb_false_iff in Hlf. destruct Hlf as [Hc Hlf].
    rewrite Hc. apply IH; [exact Hlf |].
    rewrite length_snoc. cbn [String.length] in Hlen. lia.
Qed.

Lemma Scan_truncates (max : nat) (long pre : string) :
  occurs line_feed long = false ->
  (max <= String.length long)%nat ->
  forall cur, exists texts,
    forall rest, Scan max cur (pre +:+ long +:+ rest) = (texts, Some ErrTooLong).
Proof.
  intros Hlf Hlen. induction pre as [| c pre IH]; intros cur.
  - exists []. intros rest. change (EmptyString +:+ long +:+ rest) with (long +:+ rest).
    apply Scan_long; [exact Hlf | lia].
  - destruct (Nat.leb_spec max (String.length cur)) as [Hfull | Hroom].
    { exists []. intros rest. apply Scan_full, Hfull. }
    destruct (Ascii.eqb c line_feed) eqn:Hc.
    + destruct (IH EmptyString) as [texts Htexts].
      exists (dropCR cur :: texts). intros rest.
      change (String c pre +:+ long +:+ rest) with (String c (pre +:+ long +:+ rest)).
      rewrite Scan_byte, Hc, Htexts.
      destruct (Nat.leb_spec max (String.length cur)); [lia | reflexivity].
    + destruct (IH (cur +:+ String c EmptyString)) as [texts Htexts].
      exists texts. intros rest.
      change (String c pre +:+ long +:+ rest) with (String c (pre +:+ long +:+ rest)).
      rewrite Scan_byte, Hc.
      destruct (Nat.leb_spec max (String.length cur)); [lia | apply Htexts].
Qed.

(** X21: a line of [max] bytes or more makes the scanning fail with
    "token too long"; the failure is reported, and what [readStdinLines]
    sends does not depend on the input after that line: the rest of the
    input is dropped. *)
Theorem readStdinLines_truncates (pre long : string) (max : Z) :
  0 <= max ->
  occurs line_feed long = false ->
  max <= Z.of_nat (String.length long) ->
  exists texts,
    forall rest,
      readStdinLines (pre +:+ long +:+ rest) max
      = Some {| sent := texts; out_closed := true;
                scan_failure := Some (Message scan_failure_format [ErrTooLong]) |}.
Proof.
  intros Hmax Hlf Hlen.
  destruct (Scan_truncates (Z.to_nat max) long pre Hlf ltac:(lia) EmptyString)
    as [texts Htexts].
  exists texts. intros rest. unfold readStdinLines.
  destruct (max <? 0) eqn:Hneg; [apply Z.ltb_lt in Hneg; lia |].
  rewrite Htexts. reflexivity.
Qed.

Lemma readStdinLines_truncates_witness :
  exists texts,
    forall rest,
      readStdinLines (Join ["ab"; ""] line_feed +:+ "cdef" +:+ rest) 4
      = Some {| sent := texts; out_closed := true;
                scan_failure := Some (Message scan_failure_format [ErrTooLong]) |}.
Proof.
  apply (readStdinLines_truncates (Join ["ab"; ""] line_feed) "cdef" 4);
    [lia | reflexivity | cbn; lia].
Defined.
